(** * vizvolt-ingestion: the device telemetry poller of [DeviceRaw.py]

    A shallow embedding of [DeviceRaw.py] and the properties of its
    field sanitizer, row insert, fetcher, poll loop and health endpoint.

    Conventions of the embedding.
    - A Python value decoded from JSON is a [pyval]; a Python [dict] is
      an association list in insertion order, looked up by its first
      binding of a key.
    - A Python [str] is a Rocq [string]; each character stands for the
      code point of the same number, so the strings of the model are the
      Python strings over code points below 256.
    - A Python exception is a value of [exn]; every constructor is a
      subclass of [Exception].
    - The outside world (clock, HTTP endpoint, database server) is an
      explicit script of replies that the code consumes. *)

From Stdlib Require Import String Ascii List ZArith NArith Bool Lia.
From Stdlib Require Import Floats.SpecFloat.
Import ListNotations.
Local Open Scope string_scope.
Local Open Scope Z_scope.

(** ** Python values *)

(** [datetime.datetime] without time zone: the seven fields of the
    constructor. *)
Record datetime : Type := mkDatetime {
  year : Z;
  month : Z;
  day : Z;
  hour : Z;
  minute : Z;
  second : Z;
  microsecond : Z
}.

#[warnings="-register-all"]
Inductive pyval : Type :=
| PNone
| PBool (b : bool)
| PInt (n : Z)
| PFloat (f : spec_float)
| PStr (s : string)
| PList (l : list pyval)
| PDict (d : list (string * pyval))
| PDatetime (t : datetime).

(** The exceptions the program can meet; all derive from [Exception]. *)
Inductive exn : Type :=
| KeyError (key : string)
| AttributeError (attr : string)
| TypeError (msg : string)
| ValueError (msg : string)
| JSONDecodeError
| HTTPError (status : Z)
| RequestException (msg : string)
| DatabaseError (msg : string)
| OperationalError (msg : string)
| ProgrammingError (msg : string)
| InterfaceError (msg : string).

(** ** Dictionaries *)

Definition dict : Type := list (string * pyval).

(** [d.get(k)] as an option: the first binding of [k]. *)
Fixpoint dict_get (d : dict) (k : string) : option pyval :=
  match d with
  | [] => None
  | (k', v) :: d' => if String.eqb k' k then Some v else dict_get d' k
  end.

(** [d[k] = v]: overwrite the binding in place, or append a new one. *)
Fixpoint dict_set (d : dict) (k : string) (v : pyval) : dict :=
  match d with
  | [] => [(k, v)]
  | (k', v') :: d' =>
      if String.eqb k' k then (k, v) :: d' else (k', v') :: dict_set d' k v
  end.

(** [d.get(k)] of Python: [None] when the key is missing. *)
Definition py_get (d : dict) (k : string) : pyval :=
  match dict_get d k with
  | Some v => v
  | None => PNone
  end.

(** [{k: f(v) for k, v in d.items()}] *)
Definition dict_map (f : pyval -> pyval) (d : dict) : dict :=
  map (fun kv => (fst kv, f (snd kv))) d.

(** ** HELPERS: [safe] *)

(** The literals of the list [[None, "", "null", "NULL", "NA"]]. *)
Inductive literal : Type :=
| LNone
| LStr (s : string).

(** [value == lit] for a literal that is [None] or a [str]: only [None]
    equals [None], and only an equal [str] equals a [str]. *)
Definition py_eq_literal (value : pyval) (lit : literal) : bool :=
  match lit, value with
  | LNone, PNone => true
  | LStr a, PStr b => String.eqb b a
  | _, _ => false
  end.

(** [value in lits] *)
Definition py_in (value : pyval) (lits : list literal) : bool :=
  existsb (py_eq_literal value) lits.

Definition sentinels : list literal :=
  [LNone; LStr ""; LStr "null"; LStr "NULL"; LStr "NA"].

(** [def safe(value, default=0)] *)
Definition safe (value : pyval) (default : pyval) : pyval :=
  if py_in value sentinels then default else value.

(** The default of the parameter [default]. *)
Definition safe_default : pyval := PInt 0.

(** The sentinel forms of the specification, spelled out. *)
Definition is_sentinel (v : pyval) : Prop :=
  v = PNone \/ v = PStr "" \/ v = PStr "null" \/ v = PStr "NULL" \/ v = PStr "NA".

(** ** HELPERS: [safe_timestamp] and the library call it makes

    [datetime.strptime(value, "%Y-%m-%d %H:%M:%S.%f")] is CPython's
    [_strptime._strptime_datetime]: the format is turned into a regular
    expression, the expression is matched at the start of the string,
    the named groups are converted with [int], and the [datetime]
    constructor checks the ranges. *)

(** *** Regular expressions, as the backtracking matcher of [re] runs them *)

Inductive regex : Type :=
| Cls (p : ascii -> bool)            (* one character of a class *)
| Cat (r1 r2 : regex)                (* r1 r2 *)
| Alt (r1 r2 : regex)                (* r1|r2, r1 is tried first *)
| Plus (p : ascii -> bool)           (* class+, greedy *)
| Upto (p : ascii -> bool) (n : nat) (* class{1,n}, greedy *)
| Group (name : string) (r : regex). (* (?P<name>r) *)

(** The named groups of a match, [found.groupdict()]. *)
Definition groupdict : Type := list (string * string).

(** Up to [n] characters of the class [p], the longest run first. *)
Fixpoint run_upto (p : ascii -> bool) (n : nat) (s : string)
  : list (string * string) :=
  match n, s with
  | S n', String c s' =>
      if p c
      then (map (fun ts => (String c (fst ts), snd ts)) (run_upto p n' s')
             ++ [("", s)])%list
      else [("", s)]
  | _, _ => [("", s)]
  end.

(** Any number of characters of the class [p], the longest run first. *)
Fixpoint run_all (p : ascii -> bool) (s : string) : list (string * string) :=
  match s with
  | String c s' =>
      if p c
      then (map (fun ts => (String c (fst ts), snd ts)) (run_all p s')
             ++ [("", s)])%list
      else [("", s)]
  | EmptyString => [("", s)]
  end.

Definition one (p : ascii -> bool) (s : string) : list (string * string) :=
  match s with
  | String c s' => if p c then [(String c "", s')] else []
  | EmptyString => []
  end.

(** One way a pattern matches at the start of a string: the text
    matched, the named groups set, and the rest of the string. *)
Record hit : Type := mkHit {
  text : string;
  groups : groupdict;
  rest : string
}.

Definition hit_of (ts : string * string) : hit := mkHit (fst ts) [] (snd ts).

(** The hit [h] followed by the hit [h'] of the next pattern. *)
Definition join (h h' : hit) : hit :=
  mkHit (text h ++ text h') (groups h ++ groups h')%list (rest h').

(** The hits of a pattern that follows the hit [h]. *)
Definition after (h : hit) (hs : list hit) : list hit := map (join h) hs.

(** All the ways [r] matches a prefix of [s], in the order in which the
    backtracking matcher tries them. *)
Fixpoint rmatch (r : regex) (s : string) : list hit :=
  match r with
  | Cls p => map hit_of (one p s)
  | Cat r1 r2 => flat_map (fun h => after h (rmatch r2 (rest h))) (rmatch r1 s)
  | Alt r1 r2 => (rmatch r1 s ++ rmatch r2 s)%list
  | Plus p =>
      flat_map (fun h => after h (map hit_of (run_all p (rest h))))
               (map hit_of (one p s))
  | Upto p n =>
      flat_map (fun h => after h (map hit_of (run_upto p (pred n) (rest h))))
               (map hit_of (one p s))
  | Group name r' =>
      map (fun h => mkHit (text h) ((name, text h) :: groups h) (rest h))
          (rmatch r' s)
  end.

(** [regex.match(s)]: the first way the matcher finds, if any. *)
Definition regex_match (r : regex) (s : string) : option hit :=
  hd_error (rmatch r s).

(** *** Character classes *)

Definition code (c : ascii) : N := N_of_ascii c.

(** [[lo-hi]] *)
Definition range (lo hi : ascii) (c : ascii) : bool :=
  ((code lo <=? code c) && (code c <=? code hi))%N.

(** A literal character of the format. *)
Definition lit (a : ascii) : regex := Cls (Ascii.eqb a).

(** [\d]: the decimal digits; below code point 256 these are [0-9]. *)
Definition digit : ascii -> bool := range "0" "9".

(** [\s]: the white space of [str]; below code point 256 these are the
    code points 9-13, 28-32, 133 and 160. *)
Definition space (c : ascii) : bool :=
  existsb (N.eqb (code c)) [9; 10; 11; 12; 13; 28; 29; 30; 31; 32; 133; 160]%N.

(** *** The directives of [TimeRE] that the format uses *)

(** ['Y': r"(?P<Y>\d\d\d\d)"] *)
Definition re_Y : regex :=
  Group "Y" (Cat (Cls digit) (Cat (Cls digit) (Cat (Cls digit) (Cls digit)))).

(** ['m': r"(?P<m>1[0-2]|0[1-9]|[1-9])"] *)
Definition re_m : regex :=
  Group "m" (Alt (Cat (lit "1") (Cls (range "0" "2")))
            (Alt (Cat (lit "0") (Cls (range "1" "9")))
                 (Cls (range "1" "9")))).

(** ['d': r"(?P<d>3[0-1]|[1-2]\d|0[1-9]|[1-9]| [1-9])"] *)
Definition re_d : regex :=
  Group "d" (Alt (Cat (lit "3") (Cls (range "0" "1")))
            (Alt (Cat (Cls (range "1" "2")) (Cls digit))
            (Alt (Cat (lit "0") (Cls (range "1" "9")))
            (Alt (Cls (range "1" "9"))
                 (Cat (lit " ") (Cls (range "1" "9"))))))).

(** ['H': r"(?P<H>2[0-3]|[0-1]\d|\d)"] *)
Definition re_H : regex :=
  Group "H" (Alt (Cat (lit "2") (Cls (range "0" "3")))
            (Alt (Cat (Cls (range "0" "1")) (Cls digit))
                 (Cls digit))).

(** ['M': r"(?P<M>[0-5]\d|\d)"] *)
Definition re_M : regex :=
  Group "M" (Alt (Cat (Cls (range "0" "5")) (Cls digit)) (Cls digit)).

(** ['S': r"(?P<S>6[0-1]|[0-5]\d|\d)"] *)
Definition re_S : regex :=
  Group "S" (Alt (Cat (lit "6") (Cls (range "0" "1")))
            (Alt (Cat (Cls (range "0" "5")) (Cls digit))
                 (Cls digit))).

(** ['f': r"(?P<f>[0-9]{1,6})"] *)
Definition re_f : regex := Group "f" (Upto (range "0" "9") 6).

(** [TimeRE.pattern("%Y-%m-%d %H:%M:%S.%f")]: the literal characters
    stay, the blank becomes [\s+], each directive its expression. *)
Definition format_regex : regex :=
  Cat re_Y (Cat (lit "-") (Cat re_m (Cat (lit "-") (Cat re_d
  (Cat (Plus space)
  (Cat re_H (Cat (lit ":") (Cat re_M (Cat (lit ":") (Cat re_S
  (Cat (lit ".") re_f))))))))))).

(** *** [int] on the text of a group *)

(** The value of a decimal digit. *)
Definition digit_value (c : ascii) : Z := Z.of_N (code c) - 48.

Fixpoint all_digits (s : string) : bool :=
  match s with
  | EmptyString => true
  | String c s' => digit c && all_digits s'
  end.

(** The number written by the digits of [s], after the digits read so
    far have given [acc]. *)
Fixpoint digits_value (acc : Z) (s : string) : Z :=
  match s with
  | EmptyString => acc
  | String c s' => digits_value (10 * acc + digit_value c) s'
  end.

Fixpoint lstrip (s : string) : string :=
  match s with
  | String c s' => if space c then lstrip s' else s
  | EmptyString => s
  end.

(** [int(s)] for the texts a group of the pattern can hold: a run of
    decimal digits, after white space that [int] skips. Signs,
    underscores and trailing white space, which [int] also accepts, do
    not occur in a group. *)
Definition int (s : string) : exn + Z :=
  let t := lstrip s in
  match t with
  | EmptyString => inl (ValueError "invalid literal for int()")
  | _ => if all_digits t then inr (digits_value 0 t)
         else inl (ValueError "invalid literal for int()")
  end.

(** [found_dict[name]] *)
Fixpoint group (found : groupdict) (name : string) : string :=
  match found with
  | [] => ""
  | (n, t) :: found' => if String.eqb n name then t else group found' name
  end.

(** ["0" * n] *)
Fixpoint zeros (n : nat) : string :=
  match n with
  | O => ""
  | S n' => String "0" (zeros n')
  end.

(** *** The range checks of [datetime] *)

(** [_is_leap(year)] *)
Definition _is_leap (y : Z) : bool :=
  (y mod 4 =? 0) && (negb (y mod 100 =? 0) || (y mod 400 =? 0)).

(** [_DAYS_IN_MONTH] *)
Definition _DAYS_IN_MONTH : list Z :=
  [-1; 31; 28; 31; 30; 31; 30; 31; 31; 30; 31; 30; 31].

(** [_days_in_month(year, month)] *)
Definition _days_in_month (y m : Z) : Z :=
  if (m =? 2) && _is_leap y then 29
  else nth (Z.to_nat m) _DAYS_IN_MONTH 0.

Definition MINYEAR : Z := 1.
Definition MAXYEAR : Z := 9999.

(** [_check_date_fields(year, month, day)] *)
Definition _check_date_fields (y m d : Z) : exn + unit :=
  if negb ((MINYEAR <=? y) && (y <=? MAXYEAR))
  then inl (ValueError "year is out of range")
  else if negb ((1 <=? m) && (m <=? 12))
  then inl (ValueError "month must be in 1..12")
  else if negb ((1 <=? d) && (d <=? _days_in_month y m))
  then inl (ValueError "day is out of range for month")
  else inr tt.

(** [_check_time_fields(hour, minute, second, microsecond, fold)] *)
Definition _check_time_fields (hh mi ss us : Z) : exn + unit :=
  if negb ((0 <=? hh) && (hh <=? 23))
  then inl (ValueError "hour must be in 0..23")
  else if negb ((0 <=? mi) && (mi <=? 59))
  then inl (ValueError "minute must be in 0..59")
  else if negb ((0 <=? ss) && (ss <=? 59))
  then inl (ValueError "second must be in 0..59")
  else if negb ((0 <=? us) && (us <=? 999999))
  then inl (ValueError "microsecond must be in 0..999999")
  else inr tt.

(** A short notation for code that may raise. *)
Notation "'let?' x ':=' e 'in' k" :=
  (match e with
   | inl err => inl err
   | inr x => k
   end)
  (at level 10, x pattern, e at level 100, k at level 200).

(** [datetime(year, month, day, hour, minute, second, microsecond)] *)
Definition datetime_new (y m d hh mi ss us : Z) : exn + datetime :=
  let? _ := _check_date_fields y m d in
  let? _ := _check_time_fields hh mi ss us in
  inr (mkDatetime y m d hh mi ss us).

(** *** [_strptime] and [_strptime_datetime] *)

(** The fields [_strptime] hands to the constructor: year, month, day,
    hour, minute, second and the fraction in microseconds. *)
Definition _strptime (data_string : string)
  : exn + (Z * Z * Z * Z * Z * Z * Z) :=
  match regex_match format_regex data_string with
  | None => inl (ValueError "time data does not match format")
  | Some found =>
      if negb (String.eqb (rest found) "")
      then inl (ValueError "unconverted data remains")
      else
        let found_dict := groups found in
        let? year := int (group found_dict "Y") in
        let? month := int (group found_dict "m") in
        let? day := int (group found_dict "d") in
        let? hour := int (group found_dict "H") in
        let? minute := int (group found_dict "M") in
        let? second := int (group found_dict "S") in
        let s := group found_dict "f" in
        let s := s ++ zeros (6 - String.length s) in
        let? fraction := int s in
        (* julian = datetime_date(year, month, day).toordinal() - ... *)
        let? _ := _check_date_fields year month day in
        inr (year, month, day, hour, minute, second, fraction)
  end.

Definition _strptime_datetime (data_string : string) : exn + datetime :=
  let? args := _strptime data_string in
  let '(y, m, d, hh, mi, ss, fraction) := args in
  datetime_new y m d hh mi ss fraction.

(** [datetime.strptime(value, "%Y-%m-%d %H:%M:%S.%f")] *)
Definition strptime (value : pyval) : exn + datetime :=
  match value with
  | PStr s => _strptime_datetime s
  | _ => inl (TypeError "strptime() argument 1 must be str")
  end.

(** [def safe_timestamp(value)] *)
Definition safe_timestamp (value : pyval) : pyval :=
  if py_in value sentinels then PNone
  else match strptime value with
       | inr t => PDatetime t
       | inl _ => PNone
       end.

(** *** The fixed format of the specification

    [YYYY-MM-DD HH:MM:SS.ffffff]: four, two, two, two, two, two and six
    decimal digits, separated by [-], [-], one blank, [:], [:] and [.].
    [fixed_format s t] says that [s] is written in this format and that
    its fields read as the fields of [t]. *)

(** The number a list of decimal digits writes. *)
Definition number (cs : list ascii) : Z :=
  fold_left (fun acc c => 10 * acc + digit_value c) cs 0.

Inductive fixed_format : string -> datetime -> Prop :=
| FixedFormat (y1 y2 y3 y4 m1 m2 d1 d2 h1 h2 n1 n2 s1 s2 f1 f2 f3 f4 f5 f6 : ascii) :
    forallb digit [y1; y2; y3; y4; m1; m2; d1; d2; h1; h2; n1; n2; s1; s2;
                   f1; f2; f3; f4; f5; f6] = true ->
    fixed_format
      (string_of_list_ascii
         [y1; y2; y3; y4; "-"; m1; m2; "-"; d1; d2; " ";
          h1; h2; ":"; n1; n2; ":"; s1; s2; "."; f1; f2; f3; f4; f5; f6]%char)
      (mkDatetime (number [y1; y2; y3; y4]) (number [m1; m2]) (number [d1; d2])
                  (number [h1; h2]) (number [n1; n2]) (number [s1; s2])
                  (number [f1; f2; f3; f4; f5; f6])).

(** The fields of [t] are those of an instant: the class invariant of
    [datetime]. *)
Definition valid_datetime (t : datetime) : Prop :=
  MINYEAR <= year t <= MAXYEAR /\
  1 <= month t <= 12 /\
  1 <= day t <= _days_in_month (year t) (month t) /\
  0 <= hour t <= 23 /\
  0 <= minute t <= 59 /\
  0 <= second t <= 59 /\
  0 <= microsecond t <= 999999.

(** ** The outside world *)

(** A row of [device_data]: the values bound to the placeholders of the
    INSERT, in the order of its column list. *)
Definition row : Type := list (string * pyval).

(** What the database server answers to a statement or a commit. *)
Inductive reply : Type :=
| Done                 (* carried out *)
| Refused (e : exn)    (* an error of the statement; the connection stays usable *)
| Dropped (e : exn)    (* the connection is lost before the server carries it out *)
| Unacknowledged (e : exn).
                       (* the server carries it out, and the connection is lost
                          before its answer arrives *)

(** The state of a [psycopg2] connection object. *)
Inductive conn_status : Type :=
| Open
| Lost      (* the server side is gone; the object was not closed *)
| Closed.

Record connection : Type := mkConnection {
  status : conn_status;
  pending : list row     (* inserted in the transaction in progress *)
}.

(** The lines the program prints. *)
Inductive line : Type :=
| Started                                  (* "Vizvolt RAW ingestion started..." *)
| Inserted (imei : pyval) (at_ : datetime) (* "Inserted IMEI ... at ..." *)
| DbError (e : exn)                        (* "DB ERROR:", e *)
| MainLoopError (e : exn).                 (* "MAIN LOOP ERROR:", e *)

(** What the program does to the outside, in the order it does it. *)
Inductive event : Type :=
| Connect (conn : nat)        (* [psycopg2.connect] returned connection [conn] *)
| Post                        (* [requests.post] was called *)
| Upsert (device : pyval)     (* [upsert_device(conn, device)] was entered *)
| Execute (data : list (string * pyval)) (* [cursor.execute(INSERT, data)] was called *)
| Commit                      (* [conn.commit()] returned *)
| Rollback                    (* [conn.rollback()] returned *)
| CursorClose                 (* [cursor.close()] *)
| Close (conn : nat)          (* [conn.close()] *)
| Print (l : line)            (* [print] *)
| Sleep (seconds : Z).        (* [time.sleep] *)

Record world : Type := mkWorld {
  table : list row;           (* the committed rows of [device_data], oldest first *)
  conns : list connection;    (* the connections made so far; a handle is an index *)
  trace : list event          (* the events so far, oldest first *)
}.

(** What the outside answers while one record is upserted. *)
Record row_env : Type := mkRowEnv {
  stamp : datetime;           (* [datetime.now()] of line 92 *)
  printed_at : datetime;      (* [datetime.now()] of line 135 *)
  on_execute : reply;         (* the server's answer to the INSERT *)
  on_commit : reply           (* the server's answer to the COMMIT *)
}.

(** An HTTP response of [requests]: its status and what [res.json()]
    gives, the decoded body or the error of a body that is not JSON. *)
Record response : Type := mkResponse {
  status_code : Z;
  json : exn + pyval
}.

(** What the outside answers during one tick of the poll loop. *)
Record tick_env : Type := mkTickEnv {
  on_connect : option exn;        (* [psycopg2.connect] raises this, or connects *)
  on_post : exn + response;       (* [requests.post] raises, or returns a response *)
  on_row : nat -> row_env         (* the answers for the i-th record of the tick *)
}.

(** ** Code that has effects and may raise *)

(** A computation runs in a world, and either raises or returns; the
    effects it had before raising stay. *)
Definition M (A : Type) : Type := world -> (exn + A) * world.

Definition ret {A : Type} (a : A) : M A := fun w => (inr a, w).

Definition raise {A : Type} (e : exn) : M A := fun w => (inl e, w).

Definition bind {A B : Type} (c : M A) (k : A -> M B) : M B :=
  fun w =>
    match c w with
    | (inl e, w') => (inl e, w')
    | (inr a, w') => k a w'
    end.

Declare Scope py_scope.
Delimit Scope py_scope with py.
Notation "x <- c ;; k" := (bind c (fun x => k))
  (at level 61, c at next level, right associativity) : py_scope.
Notation "c ;; k" := (bind c (fun _ => k))
  (at level 61, right associativity) : py_scope.
Local Open Scope py_scope.

(** A value that may be an exception, raised now. *)
Definition lift {A : Type} (r : exn + A) : M A :=
  match r with
  | inl e => raise e
  | inr a => ret a
  end.

(** [try: body  except Exception as e: handler e] *)
Definition try_except {A : Type} (body : M A) (handler : exn -> M A) : M A :=
  fun w =>
    match body w with
    | (inl e, w') => handler e w'
    | (inr a, w') => (inr a, w')
    end.

(** [try: body  finally: final]: [final] runs however [body] ends, and
    an exception of [final] replaces the outcome of [body]. *)
Definition try_finally {A : Type} (body : M A) (final : M unit) : M A :=
  fun w =>
    match body w with
    | (r, w') =>
        match final w' with
        | (inl e, w'') => (inl e, w'')
        | (inr _, w'') => (r, w'')
        end
    end.

Definition emit (ev : event) : M unit :=
  fun w => (inr tt, mkWorld (table w) (conns w) (trace w ++ [ev])).

(** [print(...)] *)
Definition print (l : line) : M unit := emit (Print l).

(** [time.sleep(seconds)] *)
Definition sleep (seconds : Z) : M unit := emit (Sleep seconds).

(** ** The [psycopg2] connection, as the program uses it *)

Definition conn_of (w : world) (conn : nat) : connection :=
  nth conn (conns w) (mkConnection Closed []).

Fixpoint set_nth {A : Type} (n : nat) (a : A) (l : list A) : list A :=
  match n, l with
  | O, _ :: l' => a :: l'
  | S n', x :: l' => x :: set_nth n' a l'
  | _, [] => []
  end.

Definition set_conn (conn : nat) (c : connection) : M unit :=
  fun w => (inr tt, mkWorld (table w) (set_nth conn c (conns w)) (trace w)).

Definition get_conn (conn : nat) : M connection :=
  fun w => (inr (conn_of w conn), w).

(** Every call on a connection that is not open raises. *)
Definition require_open (conn : nat) : M connection :=
  c <- get_conn conn ;;
  match status c with
  | Open => ret c
  | _ => raise (InterfaceError "connection already closed")
  end.

(** [psycopg2.connect(...)] *)
Definition connect (answer : option exn) : M nat :=
  match answer with
  | Some e => raise e
  | None =>
      fun w =>
        let conn := length (conns w) in
        (inr conn,
         mkWorld (table w) (conns w ++ [mkConnection Open []])
                 (trace w ++ [Connect conn]))
  end.

(** [conn.cursor()] *)
Definition cursor (conn : nat) : M unit :=
  _ <- require_open conn ;; ret tt.

(** The columns of the INSERT, in the order of its column list; each is
    bound to the placeholder [%(name)s] of the same name. *)
Definition columns : list string :=
  ["imei"; "assetname"; "gpsiat"; "latitude"; "longitude"; "direction"; "speed";
   "disttravelled_all"; "disttravelled_today"; "bmsiat"; "cc"; "voltage";
   "current"; "soc";
   "maxvoltagecellvalue"; "maxvltagecellnumber";
   "minvoltagecellvalue"; "minvoltagecellnumber";
   "ChargeDischargeStatus"; "ChargingCurrent"; "dischargingcurrent";
   "DeviceStatus";
   "serial"; "barcode";
   "cellVolt1"; "cellVolt2"; "cellVolt3"; "cellVolt4"; "cellVolt5"; "cellVolt6";
   "cellVolt7"; "cellVolt8"; "cellVolt9"; "cellVolt10"; "cellVolt11"; "cellVolt12";
   "cellVolt13"; "cellVolt14"; "cellVolt15"; "cellVolt16";
   "cellTemp1"; "cellTemp2"; "cellTemp3"; "cellTemp4"; "cellTemp5"; "cellTemp6";
   "cellTemp7"; "cellTemp8"; "cellTemp9"; "cellTemp10"; "cellTemp11"; "cellTemp12";
   "cellTemp13"; "cellTemp14"; "cellTemp15"; "cellTemp16";
   "charging"; "avgrangekm"; "maxrangekm"; "minrangekm";
   "created_at"].

(** The character NUL occurs in the string. *)
Fixpoint has_nul (s : string) : bool :=
  match s with
  | EmptyString => false
  | String c s' => (code c =? 0)%N || has_nul s'
  end.

(** The adaptation of a Python value to an SQL literal, which [psycopg2]
    does on the client before anything is sent: [None] becomes NULL,
    and [bool], [int], [float] and [datetime] have an adapter that
    succeeds on every value decoded from JSON or read from the clock; a
    [str] is quoted, in the encoding of the connection (UTF8, which
    encodes every string), unless it holds a NUL; a [list] becomes an
    array of its adapted elements, the first failure being raised; a
    [dict] has no adapter. *)
Fixpoint adapt (v : pyval) : exn + unit :=
  match v with
  | PNone | PBool _ | PInt _ | PFloat _ | PDatetime _ => inr tt
  | PStr s =>
      if has_nul s
      then inl (ValueError "A string literal cannot contain NUL (0x00) characters.")
      else inr tt
  | PList l =>
      (fix each (l : list pyval) : exn + unit :=
         match l with
         | [] => inr tt
         | x :: l' => let? _ := adapt x in each l'
         end) l
  | PDict _ => inl (ProgrammingError "can't adapt type 'dict'")
  end.

(** The placeholders are filled from the mapping, one after the other,
    in the order of the statement: a name the mapping does not hold
    raises [KeyError], a value that cannot be adapted raises the error
    of its adaptation. *)
Fixpoint bind_params (names : list string) (data : dict) : exn + row :=
  match names with
  | [] => inr []
  | name :: names' =>
      match dict_get data name with
      | None => inl (KeyError name)
      | Some v =>
          let? _ := adapt v in
          let? r := bind_params names' data in
          inr ((name, v) :: r)
      end
  end.

(** [cursor.execute(INSERT, data)]: the statement is built on the
    client, then sent. A connection lost while the INSERT runs takes
    its transaction with it, whether the server had carried the
    statement out or not. *)
Definition execute (conn : nat) (data : dict) (answer : reply) : M unit :=
  emit (Execute data) ;;
  c <- require_open conn ;;
  r <- lift (bind_params columns data) ;;
  match answer with
  | Done => set_conn conn (mkConnection Open (pending c ++ [r]))
  | Refused e => raise e
  | Dropped e | Unacknowledged e =>
      set_conn conn (mkConnection Lost (pending c)) ;; raise e
  end.

(** [conn.commit()]: when the connection is lost after the server has
    committed, the rows are in the table although the call raises. *)
Definition commit (conn : nat) (answer : reply) : M unit :=
  c <- require_open conn ;;
  match answer with
  | Done =>
      (fun w => (inr tt, mkWorld (table w ++ pending c) (conns w) (trace w))) ;;
      set_conn conn (mkConnection Open []) ;;
      emit Commit
  | Refused e => raise e
  | Dropped e => set_conn conn (mkConnection Lost (pending c)) ;; raise e
  | Unacknowledged e =>
      (fun w => (inr tt, mkWorld (table w ++ pending c) (conns w) (trace w))) ;;
      set_conn conn (mkConnection Lost []) ;;
      raise e
  end.

(** [conn.rollback()] *)
Definition rollback (conn : nat) : M unit :=
  _ <- require_open conn ;;
  set_conn conn (mkConnection Open []) ;;
  emit Rollback.

(** [cursor.close()] *)
Definition cursor_close : M unit := emit CursorClose.

(** [conn.close()] *)
Definition close (conn : nat) : M unit :=
  set_conn conn (mkConnection Closed []) ;;
  emit (Close conn).

(** [get_db_connection()] *)
Definition get_db_connection (env : tick_env) : M nat :=
  connect (on_connect env).

(** ** [fetch_api_data] *)

(** [res.raise_for_status()] *)
Definition raise_for_status (res : response) : M unit :=
  if (400 <=? status_code res) && (status_code res <? 600)
  then raise (HTTPError (status_code res))
  else ret tt.

(** [obj.get("data", [])]: only a [dict] has the method. *)
Definition get_data (obj : pyval) : exn + pyval :=
  match obj with
  | PDict d =>
      match dict_get d "data" with
      | Some v => inr v
      | None => inr (PList [])
      end
  | _ => inl (AttributeError "get")
  end.

Definition fetch_api_data (env : tick_env) : M pyval :=
  emit Post ;;
  res <- lift (on_post env) ;;
  raise_for_status res ;;
  obj <- lift (json res) ;;
  lift (get_data obj).

(** ** INSERT / UPSERT *)

(** [device.items()]: only a [dict] has the method. *)
Definition items (device : pyval) : exn + dict :=
  match device with
  | PDict d => inr d
  | _ => inl (AttributeError "items")
  end.

(** Lines 85 to 89 of [upsert_device]: every value through [safe], then
    the two timestamps through [safe_timestamp]. *)
Definition sanitize_fields (device : dict) : dict :=
  let data := dict_map (fun v => safe v safe_default) device in
  let data := dict_set data "gpsiat" (safe_timestamp (py_get device "gpsiat")) in
  let data := dict_set data "bmsiat" (safe_timestamp (py_get device "bmsiat")) in
  data.

(** Lines 85 to 92 of [upsert_device]: the mapping [data] handed to the
    INSERT, stamped with [now = datetime.now()]. *)
Definition sanitize (now : datetime) (device : dict) : dict :=
  dict_set (sanitize_fields device) "created_at" (PDatetime now).

(** [def upsert_device(conn, device)] *)
Definition upsert_device (conn : nat) (env : row_env) (device : pyval) : M unit :=
  emit (Upsert device) ;;
  cursor conn ;;
  try_finally
    (try_except
       (d <- lift (items device) ;;
        let data := sanitize (stamp env) d in
        execute conn data (on_execute env) ;;
        commit conn (on_commit env) ;;
        print (Inserted (py_get d "imei") (printed_at env)))
       (fun e =>
          rollback conn ;;
          print (DbError e)))
    cursor_close.

(** ** MAIN LOOP *)

Fixpoint chars (s : string) : list pyval :=
  match s with
  | EmptyString => []
  | String c s' => PStr (String c "") :: chars s'
  end.

(** [iter(devices)]: the elements of a list, the keys of a dict, the
    characters of a str; nothing else decoded from JSON is iterable. *)
Definition iter (devices : pyval) : exn + list pyval :=
  match devices with
  | PList l => inr l
  | PDict d => inr (map (fun kv => PStr (fst kv)) d)
  | PStr s => inr (chars s)
  | _ => inl (TypeError "object is not iterable")
  end.

(** [for device in devices: upsert_device(conn, device)], from the
    [i]-th record on. *)
Fixpoint for_each (conn : nat) (env : tick_env) (i : nat) (devices : list pyval)
  : M unit :=
  match devices with
  | [] => ret tt
  | device :: devices' =>
      upsert_device conn (on_row env i) device ;;
      for_each conn env (S i) devices'
  end.

(** The body of the [try] of one tick. *)
Definition tick_body (env : tick_env) : M unit :=
  conn <- get_db_connection env ;;
  devices <- fetch_api_data env ;;
  l <- lift (iter devices) ;;
  for_each conn env 0 l ;;
  close conn.

(** One turn of [while True]. *)
Definition tick (env : tick_env) : M unit :=
  try_except (tick_body env) (fun e => print (MainLoopError e)) ;;
  sleep 10.

(** The first ticks of [while True], one for each entry of the script:
    the loop has no exit, so a run of the program is the limit of these. *)
Fixpoint ticks (script : list tick_env) : M unit :=
  match script with
  | [] => ret tt
  | env :: script' => tick env ;; ticks script'
  end.

(** [def main()], cut after the ticks of the script. The web server runs
    in its own thread and shares nothing with the loop. *)
Definition main (script : list tick_env) : M unit :=
  print Started ;;
  ticks script.

(** ** The health endpoint *)

(** [def health()] *)
Definition health (_ : unit) : pyval :=
  PDict [("status", PStr "ok"); ("service", PStr "vizvolt-ingestion")].

Record request : Type := mkRequest {
  method : string;
  path : string;
  query : string;
  body : string
}.

(** The application [app]: the only route the program declares is
    [@app.get("/")], which answers 200 with what the handler returns.
    Every other request is left to the framework. *)
Definition app (req : request) : option (M (Z * pyval)) :=
  if String.eqb (method req) "GET" && String.eqb (path req) "/"
  then Some (ret (200, health tt))
  else None.

(** The answer to a request in a world, when the program has a route
    for it. *)
Definition answer (req : request) (w : world)
  : option ((exn + Z * pyval) * world) :=
  option_map (fun handler => handler w) (app req).

(** The initial world: an empty table, no connection, nothing done. *)
Definition world0 : world := mkWorld [] [] [].

(** ** Auxiliary definitions of the proofs *)

Local Open Scope list_scope.

(** The ten decimal digits. *)
Definition digits : list ascii :=
  ["0"; "1"; "2"; "3"; "4"; "5"; "6"; "7"; "8"; "9"]%char.

(** [lo <= x <= hi] *)
Definition between (lo hi x : Z) : bool := (lo <=? x) && (x <=? hi).

Definition str (cs : list ascii) : string := string_of_list_ascii cs.

(** The groups of a match of a string in the fixed format. *)
Definition fixed_groups (y m d hh mi ss f : string) : groupdict :=
  [("Y", y); ("m", m); ("d", d); ("H", hh); ("M", mi); ("S", ss); ("f", f)].

(** The world after more events. *)
Definition with_events (w : world) (evs : list event) : world :=
  mkWorld (table w) (conns w) (trace w ++ evs).

(** The world after the connection [conn] got the state [c]. *)
Definition with_conn (w : world) (conn : nat) (c : connection) : world :=
  mkWorld (table w) (set_nth conn c (conns w)) (trace w).

(** The events of an attempt whose INSERT was called and that ends
    with a rollback. *)
Definition rolled_back (device : pyval) (data : dict) (e : exn) : list event :=
  [Upsert device; Execute data; Rollback; Print (DbError e); CursorClose].

(** The server's answer leaves the connection usable. *)
Definition keeps_connection (r : reply) : Prop :=
  match r with
  | Done | Refused _ => True
  | Dropped _ | Unacknowledged _ => False
  end.

(** The answer is the loss of the connection. *)
Definition loses_connection (r : reply) : Prop :=
  exists e, r = Dropped e \/ r = Unacknowledged e.

(** The server loses the connection during the INSERT or during the
    COMMIT that follows it. *)
Definition drops (renv : row_env) : Prop :=
  loses_connection (on_execute renv)
  \/ (on_execute renv = Done /\ loses_connection (on_commit renv)).

(** A value that is not a mapping. *)
Definition not_a_record (device : pyval) : Prop := forall d, device <> PDict d.

(** The events of an attempt on a value that is not a mapping. *)
Definition rejected (device : pyval) : list event :=
  [Upsert device; Rollback; Print (DbError (AttributeError "items")); CursorClose].

(** The keys that [upsert_device] sets itself. *)
Definition set_by_code (k : string) : Prop :=
  k = "gpsiat" \/ k = "bmsiat" \/ k = "created_at".

(** The record holds every column that the code does not set itself. *)
Definition complete (d : dict) : Prop :=
  forall c, In c columns -> ~ set_by_code c -> dict_get d c <> None.

(** Every value the record holds for such a column can be adapted. *)
Definition adaptable (d : dict) : Prop :=
  forall c v, In c columns -> ~ set_by_code c -> dict_get d c = Some v ->
              adapt v = inr tt.

(** What the INSERT and the COMMIT of the record [d] come to: the row
    that is stored, or the error raised inside the [try]. *)
Definition insert_result (renv : row_env) (d : dict) : exn + row :=
  let? r := bind_params columns (sanitize (stamp renv) d) in
  match on_execute renv with
  | Done =>
      match on_commit renv with
      | Done => inr r
      | Refused e | Dropped e | Unacknowledged e => inl e
      end
  | Refused e | Dropped e | Unacknowledged e => inl e
  end.

(** The events of the attempt on [device] while the connection stays
    usable: the INSERT of its mapping is executed and committed, or its
    error is rolled back and printed. *)
Definition attempt_events (renv : row_env) (device : pyval) : list event :=
  match device with
  | PDict d =>
      match insert_result renv d with
      | inr _ =>
          [Upsert device; Execute (sanitize (stamp renv) d); Commit;
           Print (Inserted (py_get d "imei") (printed_at renv)); CursorClose]
      | inl e => rolled_back device (sanitize (stamp renv) d) e
      end
  | _ => rejected device
  end.

(** The row that the attempt adds, if any. *)
Definition attempt_rows (renv : row_env) (device : pyval) : list row :=
  match device with
  | PDict d =>
      match insert_result renv d with
      | inr r => [r]
      | inl _ => []
      end
  | _ => []
  end.

(** The events and the rows of the attempts on [devices], the first of
    which is the [i]-th record of the tick. *)
Fixpoint loop_events (env : tick_env) (i : nat) (devices : list pyval) : list event :=
  match devices with
  | [] => []
  | device :: devices' =>
      attempt_events (on_row env i) device ++ loop_events env (S i) devices'
  end.

Fixpoint loop_rows (env : tick_env) (i : nat) (devices : list pyval) : list row :=
  match devices with
  | [] => []
  | device :: devices' =>
      attempt_rows (on_row env i) device ++ loop_rows env (S i) devices'
  end.

(** The events of the attempt during which the connection is lost:
    nothing is rolled back or printed by [upsert_device]. *)
Definition lost_events (renv : row_env) (d : dict) : list event :=
  [Upsert (PDict d); Execute (sanitize (stamp renv) d); CursorClose].

(** The devices of the calls of [upsert_device] in a trace. *)
Fixpoint attempts (tr : list event) : list pyval :=
  match tr with
  | [] => []
  | Upsert device :: tr' => device :: attempts tr'
  | _ :: tr' => attempts tr'
  end.

(** The durations of the calls of [time.sleep] in a trace. *)
Fixpoint sleeps (tr : list event) : list Z :=
  match tr with
  | [] => []
  | Sleep seconds :: tr' => seconds :: sleeps tr'
  | _ :: tr' => sleeps tr'
  end.

Definition not_sleep (ev : event) : Prop :=
  match ev with
  | Sleep _ => False
  | _ => True
  end.

(** A row with an ingestion timestamp that is a [datetime]. *)
Definition stamped (r : row) : Prop :=
  exists t, dict_get r "created_at" = Some (PDatetime t).

(** Every row, committed or pending, is stamped. *)
Definition all_stamped (w : world) : Prop :=
  Forall stamped (table w)
  /\ Forall (fun c => Forall stamped (pending c)) (conns w).

(** Every run of [c] takes a world to one related to it by [R]. *)
Definition respects (R : world -> world -> Prop) {A : Type} (c : M A) : Prop :=
  forall w, R w (snd (c w)).

(** The trace grows by events that satisfy [P]. *)
Definition grows_by (P : event -> Prop) (w w' : world) : Prop :=
  exists evs, trace w' = trace w ++ evs /\ Forall P evs.

(** Rows stay stamped. *)
Definition keeps_stamped (w w' : world) : Prop :=
  all_stamped w -> all_stamped w'.

(** The connections made so far stay in place. *)
Definition same_conns (w w' : world) : Prop :=
  length (conns w') = length (conns w).

(** The connection [conn], once not closed, is still not closed. *)
Definition stays_unclosed (conn : nat) (w w' : world) : Prop :=
  status (conn_of w conn) <> Closed -> status (conn_of w' conn) <> Closed.

(** ** The scenarios of the specification *)

(** The clock of the scenarios. *)
Definition noon : datetime := mkDatetime 2024 1 1 12 0 0 0.

(** The record of the end-to-end scenario:
    [{"imei": "123", "gpsiat": "2024-01-01 10:00:00.000000",
      "latitude": "12.34", "voltage": null}]. *)
Definition scenario_record : dict :=
  [("imei", PStr "123"); ("gpsiat", PStr "2024-01-01 10:00:00.000000");
   ("latitude", PStr "12.34"); ("voltage", PNone)].

(** A record that holds every column the API sends. *)
Definition complete_record (imei : string) : pyval :=
  PDict (("imei", PStr imei) :: map (fun c => (c, PInt 1)) (tl columns)).

(** A response with status 200 and the JSON body [obj]. *)
Definition ok_response (obj : pyval) : exn + response :=
  inr (mkResponse 200 (inr obj)).

(** A server that accepts everything. *)
Definition accepting : row_env := mkRowEnv noon noon Done Done.

(** A world with one open connection, of handle 0. *)
Definition connected : world := mkWorld [] [mkConnection Open []] [].

(** A tick in which the API call times out. *)
Definition timeout_tick : tick_env :=
  mkTickEnv None (inl (RequestException "Read timed out. (read timeout=30)"))
            (fun _ => accepting).

(** A tick with two complete records, of which the server refuses the
    first. *)
Definition refusing_tick : tick_env :=
  mkTickEnv None
    (ok_response (PDict [("data", PList [complete_record "A"; complete_record "B"])]))
    (fun i => match i with
              | O => mkRowEnv noon noon (Refused (DatabaseError "value too long")) Done
              | _ => accepting
              end).

(** A tick with two complete records, in which the connection is lost
    while the first INSERT runs. *)
Definition dropping_tick : tick_env :=
  mkTickEnv None
    (ok_response (PDict [("data", PList [complete_record "A"; complete_record "B"])]))
    (fun i => match i with
              | O => mkRowEnv noon noon
                       (Dropped (OperationalError "server closed the connection unexpectedly"))
                       Done
              | _ => accepting
              end).



(** The mapping of [complete_record]. *)
Definition complete_dict (imei : string) : dict :=
  ("imei", PStr imei) :: map (fun c => (c, PInt 1)) (tl columns).

(** ** Definitions of the further properties *)

(** How a call of [upsert_device] on an open connection ends. *)
Inductive upsert_end (conn : nat) (env : row_env) (device : pyval) (w : world)
  : (exn + unit) * world -> Prop :=
| end_rolled_back (e : exn) (evs : list event) :
    evs = [] \/ (exists data, evs = [Execute data]) ->
    upsert_end conn env device w
      (inr tt,
       with_events (with_conn w conn (mkConnection Open []))
         (Upsert device :: evs ++ [Rollback; Print (DbError e); CursorClose]))
| end_inserted (d : dict) (r : row) :
    device = PDict d ->
    bind_params columns (sanitize (stamp env) d) = inr r ->
    upsert_end conn env device w
      (inr tt,
       with_events
         (mkWorld (table w ++ pending (conn_of w conn) ++ [r])
                  (set_nth conn (mkConnection Open []) (conns w)) (trace w))
         [Upsert device; Execute (sanitize (stamp env) d); Commit;
          Print (Inserted (py_get d "imei") (printed_at env)); CursorClose])
| end_lost (d : dict) (r : row) (p : list row) :
    device = PDict d ->
    bind_params columns (sanitize (stamp env) d) = inr r ->
    p = pending (conn_of w conn) \/ p = pending (conn_of w conn) ++ [r] ->
    upsert_end conn env device w
      (inl (InterfaceError "connection already closed"),
       with_events (with_conn w conn (mkConnection Lost p))
         [Upsert device; Execute (sanitize (stamp env) d); CursorClose])
| end_unacknowledged (d : dict) (r : row) (e : exn) :
    device = PDict d ->
    bind_params columns (sanitize (stamp env) d) = inr r ->
    on_commit env = Unacknowledged e ->
    upsert_end conn env device w
      (inl (InterfaceError "connection already closed"),
       with_events
         (mkWorld (table w ++ pending (conn_of w conn) ++ [r])
                  (set_nth conn (mkConnection Lost []) (conns w)) (trace w))
         [Upsert device; Execute (sanitize (stamp env) d); CursorClose]).

(** The number of lines "Inserted IMEI ..." in a trace. *)
Fixpoint inserted_lines (tr : list event) : nat :=
  match tr with
  | [] => O
  | Print (Inserted _ _) :: tr' => S (inserted_lines tr')
  | _ :: tr' => inserted_lines tr'
  end.

(** The rows of the table against the lines "Inserted IMEI ..." of the
    trace: as many of each when [exact], at least as many rows as lines
    otherwise; and no open connection has a transaction in progress. *)
Definition accounted (exact : bool) (w : world) : Prop :=
  (if exact then length (table w) = inserted_lines (trace w)
   else (inserted_lines (trace w) <= length (table w))%nat)
  /\ Forall (fun c => status c = Open -> pending c = []) (conns w).

(** The table has one row for each line "Inserted IMEI ...". *)
Definition settled (w : world) : Prop := accounted true w.

(** The table has a row for each line "Inserted IMEI ...". *)
Definition covered (w : world) : Prop := accounted false w.

Definition keeps_accounted (exact : bool) (w w' : world) : Prop :=
  accounted exact w -> accounted exact w'.

(** The answer to every COMMIT of the tick arrives when the server has
    carried it out. *)
Definition acknowledged (env : tick_env) : Prop :=
  forall i e, on_commit (on_row env i) <> Unacknowledged e.

(** The INSERT of the record reaches the server: the record holds
    every column the code does not set itself, each with a value that
    can be adapted. *)
Definition storable (d : dict) : Prop := complete d /\ adaptable d.

(** The table only grows at its end. *)
Definition appends (w w' : world) : Prop :=
  exists rows, table w' = table w ++ rows.

(** The rows bound for the records [ds], the first of which is the
    [i]-th record of the tick: each from the mapping built with the
    clock reading of its own attempt. *)
Inductive rows_of (env : tick_env) : nat -> list dict -> list row -> Prop :=
| rows_of_nil (i : nat) : rows_of env i [] []
| rows_of_cons (i : nat) (d : dict) (ds : list dict) (r : row) (rs : list row) :
    bind_params columns (sanitize (stamp (on_row env i)) d) = inr r ->
    rows_of env (S i) ds rs ->
    rows_of env i (d :: ds) (r :: rs).

(** The lines printed for the records [ds]. *)
Fixpoint inserted_events (env : tick_env) (i : nat) (ds : list dict) : list event :=
  match ds with
  | [] => []
  | d :: ds' =>
      [Upsert (PDict d); Execute (sanitize (stamp (on_row env i)) d); Commit;
       Print (Inserted (py_get d "imei") (printed_at (on_row env i))); CursorClose]
        ++ inserted_events env (S i) ds'
  end.

(** The lines of ticks in which the store cannot be reached. *)
Fixpoint unreachable_events (script : list tick_env) : list event :=
  match script with
  | [] => []
  | env :: script' =>
      match on_connect env with
      | Some e => [Print (MainLoopError e); Sleep 10]
      | None => []
      end ++ unreachable_events script'
  end.

(** ** Further scenarios *)

(** A tick with two complete records that the server accepts. *)
Definition accepting_tick : tick_env :=
  mkTickEnv None
    (ok_response (PDict [("data", PList (map PDict [complete_dict "A"; complete_dict "B"]))]))
    (fun _ => accepting).

(** A tick with three complete records, in which the connection is
    lost while the second INSERT runs. *)
Definition late_dropping_tick : tick_env :=
  mkTickEnv None
    (ok_response
       (PDict [("data", PList [complete_record "A"; complete_record "B";
                               complete_record "C"])]))
    (fun i => match i with
              | 1%nat => mkRowEnv noon noon
                           (Dropped (OperationalError "server closed the connection unexpectedly"))
                           Done
              | _ => accepting
              end).

(** A tick whose response is [{"data": null}]. *)
Definition null_data_tick : tick_env :=
  mkTickEnv None (ok_response (PDict [("data", PNone)])) (fun _ => accepting).

(** A tick whose response is [{"data": "ab"}]. *)
Definition text_data_tick : tick_env :=
  mkTickEnv None (ok_response (PDict [("data", PStr "ab")])) (fun _ => accepting).

(** A tick with one complete record, whose COMMIT the server carries
    out while the connection is lost before the answer arrives. *)
Definition unacknowledged_tick : tick_env :=
  mkTickEnv None
    (ok_response (PDict [("data", PList [complete_record "A"])]))
    (fun _ => mkRowEnv noon noon Done
                (Unacknowledged
                   (OperationalError "server closed the connection unexpectedly"))).

(** A complete record whose [serial] is a JSON object. *)
Definition nested_dict : dict :=
  dict_set (complete_dict "A") "serial" (PDict [("batch", PInt 7)]).

(** A tick in which the store cannot be reached. *)
Definition unreachable_tick : tick_env :=
  mkTickEnv (Some (OperationalError "could not connect to server"))
            (ok_response (PDict [])) (fun _ => accepting).

(** * Properties *)

(** ** Dictionaries *)

Lemma dict_get_map (f : pyval -> pyval) (d : dict) (k : string) :
  dict_get (dict_map f d) k = option_map f (dict_get d k).
Proof.
  induction d as [|[k' v] d IH]; simpl; [reflexivity|].
  destruct (String.eqb k' k); [reflexivity | exact IH].
Qed.

Lemma dict_get_set_same (d : dict) (k : string) (v : pyval) :
  dict_get (dict_set d k v) k = Some v.
Proof.
  induction d as [|[k' v'] d IH]; simpl.
  - now rewrite String.eqb_refl.
  - destruct (String.eqb k' k) eqn:E; simpl.
    + now rewrite String.eqb_refl.
    + now rewrite E.
Qed.

Lemma dict_get_set_other (d : dict) (k k' : string) (v : pyval) :
  k' <> k -> dict_get (dict_set d k v) k' = dict_get d k'.
Proof.
  intros Hne. induction d as [|[k0 v0] d IH]; simpl.
  - destruct (String.eqb k k') eqn:E; [|reflexivity].
    apply String.eqb_eq in E. congruence.
  - destruct (String.eqb k0 k) eqn:E; simpl.
    + apply String.eqb_eq in E. subst k0.
      destruct (String.eqb k k') eqn:E'; [|reflexivity].
      apply String.eqb_eq in E'. congruence.
    + now rewrite IH.
Qed.

Lemma py_get_some (d : dict) (k : string) (v : pyval) :
  dict_get d k = Some v -> py_get d k = v.
Proof. unfold py_get. now intros ->. Qed.

(** ** The sentinel test *)

Lemma py_in_sentinels (v : pyval) :
  py_in v sentinels = true <-> is_sentinel v.
Proof.
  unfold is_sentinel. split.
  - destruct v; simpl; try discriminate; auto.
    rewrite !orb_true_iff, !String.eqb_eq.
    intros [H|[H|[H|[H|H]]]]; try discriminate; subst; auto 6.
  - intros [H|[H|[H|[H|H]]]]; subst; reflexivity.
Qed.

Lemma py_in_sentinels_false (v : pyval) :
  py_in v sentinels = false <-> ~ is_sentinel v.
Proof.
  rewrite <- py_in_sentinels. destruct (py_in v sentinels); split; congruence.
Qed.

Lemma safe_sentinel (v default : pyval) :
  is_sentinel v -> safe v default = default.
Proof. intros H. unfold safe. apply py_in_sentinels in H. now rewrite H. Qed.

Lemma safe_timestamp_sentinel (v : pyval) :
  is_sentinel v -> safe_timestamp v = PNone.
Proof.
  intros H. unfold safe_timestamp. apply py_in_sentinels in H. now rewrite H.
Qed.

Lemma safe_not_sentinel (v default : pyval) :
  ~ is_sentinel v -> safe v default = v.
Proof.
  intros H. unfold safe. apply py_in_sentinels_false in H. now rewrite H.
Qed.

(** ** The mapping built by [upsert_device] *)

Lemma sanitize_fields_other (device : dict) (k : string) :
  k <> "gpsiat" -> k <> "bmsiat" ->
  dict_get (sanitize_fields device) k
  = option_map (fun v => safe v safe_default) (dict_get device k).
Proof.
  intros Hg Hb. unfold sanitize_fields.
  rewrite dict_get_set_other by assumption.
  rewrite dict_get_set_other by assumption.
  apply dict_get_map.
Qed.

Lemma sanitize_fields_gpsiat (device : dict) :
  dict_get (sanitize_fields device) "gpsiat"
  = Some (safe_timestamp (py_get device "gpsiat")).
Proof.
  unfold sanitize_fields.
  rewrite dict_get_set_other by discriminate.
  apply dict_get_set_same.
Qed.

Lemma sanitize_fields_bmsiat (device : dict) :
  dict_get (sanitize_fields device) "bmsiat"
  = Some (safe_timestamp (py_get device "bmsiat")).
Proof. unfold sanitize_fields. apply dict_get_set_same. Qed.

Lemma sanitize_other (now : datetime) (device : dict) (k : string) :
  k <> "created_at" ->
  dict_get (sanitize now device) k = dict_get (sanitize_fields device) k.
Proof. intros H. unfold sanitize. now apply dict_get_set_other. Qed.

Lemma sanitize_created_at (now : datetime) (device : dict) :
  dict_get (sanitize now device) "created_at" = Some (PDatetime now).
Proof. unfold sanitize. apply dict_get_set_same. Qed.

(** ** [strptime] on the fixed format *)

Lemma digit_inv (c : ascii) : digit c = true -> In c digits.
Proof.
  destruct c as [[] [] [] [] [] [] [] []]; intros H; try discriminate H;
    simpl; repeat ((left; reflexivity) || right).
Qed.

Ltac each_digit H :=
  apply digit_inv in H; simpl in H;
  repeat (destruct H as [H|H]; [subst|]); try contradiction.

Lemma digit_not_space (c : ascii) : digit c = true -> space c = false.
Proof. intros H. each_digit H; reflexivity. Qed.

Ltac same_hits :=
  cbn; unfold after; rewrite ?app_nil_r, ?map_map;
  first [ reflexivity | apply map_ext; intros; reflexivity ].

Lemma rmatch_m (c1 c2 : ascii) (s : string) (r : regex) :
  digit c1 = true -> digit c2 = true ->
  rmatch (Cat re_m (Cat (lit "-") r)) (String c1 (String c2 (String "-" s)))
  = if between 1 12 (number [c1; c2])
    then map (fun h => mkHit (String c1 (String c2 (String "-" (text h))))
                             (("m", String c1 (String c2 "")) :: groups h)
                             (rest h))
             (rmatch r s)
    else [].
Proof. intros H1 H2. each_digit H1; each_digit H2; same_hits. Qed.

Lemma rmatch_d (p : ascii -> bool) (c1 c2 w c3 : ascii) (s : string) (r : regex) :
  (forall c, digit c = true -> p c = false) ->
  digit c1 = true -> digit c2 = true -> p w = true -> digit c3 = true ->
  rmatch (Cat re_d (Cat (Plus p) r)) (String c1 (String c2 (String w (String c3 s))))
  = if between 1 31 (number [c1; c2])
    then map (fun h => mkHit (String c1 (String c2 (String w (text h))))
                             (("d", String c1 (String c2 "")) :: groups h)
                             (rest h))
             (rmatch r (String c3 s))
    else [].
Proof.
  intros Hd H1 H2 Hw H3. apply Hd in H3.
  each_digit H1; each_digit H2;
    repeat (cbn; rewrite ?Hw, ?H3; rewrite ?Hd by reflexivity); same_hits.
Qed.

Lemma rmatch_H (c1 c2 : ascii) (s : string) (r : regex) :
  digit c1 = true -> digit c2 = true ->
  rmatch (Cat re_H (Cat (lit ":") r)) (String c1 (String c2 (String ":" s)))
  = if between 0 23 (number [c1; c2])
    then map (fun h => mkHit (String c1 (String c2 (String ":" (text h))))
                             (("H", String c1 (String c2 "")) :: groups h)
                             (rest h))
             (rmatch r s)
    else [].
Proof. intros H1 H2. each_digit H1; each_digit H2; same_hits. Qed.

Lemma rmatch_M (c1 c2 : ascii) (s : string) (r : regex) :
  digit c1 = true -> digit c2 = true ->
  rmatch (Cat re_M (Cat (lit ":") r)) (String c1 (String c2 (String ":" s)))
  = if between 0 59 (number [c1; c2])
    then map (fun h => mkHit (String c1 (String c2 (String ":" (text h))))
                             (("M", String c1 (String c2 "")) :: groups h)
                             (rest h))
             (rmatch r s)
    else [].
Proof. intros H1 H2. each_digit H1; each_digit H2; same_hits. Qed.

Lemma rmatch_S (c1 c2 : ascii) (s : string) (r : regex) :
  digit c1 = true -> digit c2 = true ->
  rmatch (Cat re_S (Cat (lit ".") r)) (String c1 (String c2 (String "." s)))
  = if between 0 61 (number [c1; c2])
    then map (fun h => mkHit (String c1 (String c2 (String "." (text h))))
                             (("S", String c1 (String c2 "")) :: groups h)
                             (rest h))
             (rmatch r s)
    else [].
Proof. intros H1 H2. each_digit H1; each_digit H2; same_hits. Qed.

Lemma rmatch_cat_cls (p : ascii -> bool) (c : ascii) (s : string) (r : regex) :
  p c = true ->
  rmatch (Cat (Cls p) r) (String c s) = map (join (mkHit (String c "") [] s)) (rmatch r s).
Proof. intros H. cbn. rewrite H. cbn. now rewrite app_nil_r. Qed.

Lemma rmatch_cls (p : ascii -> bool) (c : ascii) (s : string) :
  p c = true -> rmatch (Cls p) (String c s) = [mkHit (String c "") [] s].
Proof. intros H. cbn. now rewrite H. Qed.

Lemma rmatch_Y (c1 c2 c3 c4 : ascii) (s : string) (r : regex) :
  digit c1 = true -> digit c2 = true -> digit c3 = true -> digit c4 = true ->
  rmatch (Cat re_Y (Cat (lit "-") r))
         (String c1 (String c2 (String c3 (String c4 (String "-" s)))))
  = map (fun h => mkHit (String c1 (String c2 (String c3 (String c4 (String "-" (text h))))))
                        (("Y", String c1 (String c2 (String c3 (String c4 "")))) :: groups h)
                        (rest h))
        (rmatch r s).
Proof.
  intros H1 H2 H3 H4. unfold re_Y.
  change (rmatch (Cat (Group "Y" ?a) ?b) ?s) with
    (flat_map (fun h => after h (rmatch b (rest h))) (rmatch (Group "Y" a) s)).
  change (rmatch (Group "Y" ?a) ?s) with
    (map (fun h => mkHit (text h) (("Y", text h) :: groups h) (rest h)) (rmatch a s)).
  rewrite !rmatch_cat_cls, rmatch_cls by assumption.
  cbn. unfold after. rewrite ?app_nil_r, ?map_map.
  apply map_ext; intros; reflexivity.
Qed.

Lemma run_upto_digits (n : nat) (c : ascii) (s : string) :
  run_upto (range "0" "9") (S n) (String c s)
  = if range "0" "9" c
    then (map (fun ts => (String c (fst ts), snd ts)) (run_upto (range "0" "9") n s)
            ++ [("", String c s)])%list
    else [("", String c s)].
Proof. reflexivity. Qed.

Lemma regex_match_f (c1 c2 c3 c4 c5 c6 : ascii) :
  digit c1 = true -> digit c2 = true -> digit c3 = true ->
  digit c4 = true -> digit c5 = true -> digit c6 = true ->
  let f := String c1 (String c2 (String c3 (String c4 (String c5 (String c6 ""))))) in
  hd_error (rmatch re_f f) = Some (mkHit f [("f", f)] "").
Proof.
  unfold digit. intros H1 H2 H3 H4 H5 H6. 
  unfold re_f.
  change (rmatch (Group "f" ?a) ?s) with
    (map (fun h => mkHit (text h) (("f", text h) :: groups h) (rest h)) (rmatch a s)).
  change (rmatch (Upto ?p 6) (String ?c ?s)) with
    (flat_map (fun h => after h (map hit_of (run_upto p 5 (rest h))))
               (map hit_of (if p c then [(String c "", s)] else []))).
  rewrite H1. 
  change (flat_map ?f (map hit_of [?a])) with (f (hit_of a) ++ [])%list.
  rewrite app_nil_r.
  change (rest (hit_of (?a, ?b))) with b.
  rewrite !run_upto_digits. rewrite H2, H3, H4, H5, H6. reflexivity.
Qed.

Lemma hd_error_map {A B : Type} (f : A -> B) (l : list A) :
  hd_error (map f l) = option_map f (hd_error l).
Proof. now destruct l. Qed.

Lemma forallb_digits (cs : list ascii) :
  forallb digit cs = true -> Forall (fun c => digit c = true) cs.
Proof. intros H. apply Forall_forall. now apply forallb_forall. Qed.

Ltac digit_hyps H :=
  apply forallb_digits in H;
  repeat match type of H with
         | Forall _ (_ :: _) => let Hc := fresh "Hc" in
                                 apply Forall_cons_iff in H; destruct H as [Hc H]
         end; clear H.

Lemma regex_match_fixed
  (y1 y2 y3 y4 m1 m2 d1 d2 h1 h2 n1 n2 s1 s2 f1 f2 f3 f4 f5 f6 : ascii) :
  forallb digit [y1; y2; y3; y4; m1; m2; d1; d2; h1; h2; n1; n2; s1; s2;
                 f1; f2; f3; f4; f5; f6] = true ->
  let s := str [y1; y2; y3; y4; "-"; m1; m2; "-"; d1; d2; " ";
                h1; h2; ":"; n1; n2; ":"; s1; s2; "."; f1; f2; f3; f4; f5; f6]%char in
  regex_match format_regex s
  = if between 1 12 (number [m1; m2]) && between 1 31 (number [d1; d2])
       && between 0 23 (number [h1; h2]) && between 0 59 (number [n1; n2])
       && between 0 61 (number [s1; s2])
    then Some (mkHit s (fixed_groups (str [y1; y2; y3; y4]) (str [m1; m2]) (str [d1; d2])
                          (str [h1; h2]) (str [n1; n2]) (str [s1; s2])
                          (str [f1; f2; f3; f4; f5; f6])) "")
    else None.
Proof.
  intros H s. subst s. digit_hyps H.
  unfold regex_match, format_regex, str, string_of_list_ascii.
  rewrite rmatch_Y by assumption.
  rewrite rmatch_m by assumption.
  destruct (between 1 12 (number [m1; m2])); [|reflexivity].
  rewrite (rmatch_d space) by (auto using digit_not_space).
  destruct (between 1 31 (number [d1; d2])); [|reflexivity].
  rewrite rmatch_H by assumption.
  destruct (between 0 23 (number [h1; h2])); [|reflexivity].
  rewrite rmatch_M by assumption.
  destruct (between 0 59 (number [n1; n2])); [|reflexivity].
  rewrite rmatch_S by assumption.
  destruct (between 0 61 (number [s1; s2])); [|reflexivity].
  rewrite !hd_error_map.
  rewrite (regex_match_f f1 f2 f3 f4 f5 f6) by assumption.
  reflexivity.
Qed.

Lemma int_digits (c : ascii) (s : string) :
  digit c = true -> all_digits s = true ->
  int (String c s) = inr (digits_value 0 (String c s)).
Proof.
  intros Hc Hs. unfold int. simpl lstrip. rewrite (digit_not_space c Hc).
  simpl all_digits. now rewrite Hc, Hs.
Qed.

Lemma days_in_month_le (y m : Z) : _days_in_month y m <= 31.
Proof.
  unfold _days_in_month.
  destruct ((m =? 2) && _is_leap y); [lia|].
  destruct (Z.to_nat m) as [|[|[|[|[|[|[|[|[|[|[|[|[|[|n]]]]]]]]]]]]]]; simpl; try lia.
Qed.

Lemma datetime_new_valid (y m d hh mi ss us : Z) :
  valid_datetime (mkDatetime y m d hh mi ss us) ->
  _check_date_fields y m d = inr tt /\
  datetime_new y m d hh mi ss us = inr (mkDatetime y m d hh mi ss us).
Proof.
  unfold valid_datetime, datetime_new, _check_date_fields, _check_time_fields. simpl.
  intros (Hy & Hm & Hd & Hh & Hmi & Hs & Hus).
  repeat match goal with
         | |- context [?a <=? ?b] =>
             let E := fresh in destruct (Z.leb_spec a b) as [E|E]; [|lia]
         end.
  simpl. auto.
Qed.

Lemma datetime_new_inv (y m d hh mi ss us : Z) (t : datetime) :
  datetime_new y m d hh mi ss us = inr t ->
  t = mkDatetime y m d hh mi ss us /\ valid_datetime t.
Proof.
  unfold valid_datetime, datetime_new, _check_date_fields, _check_time_fields.
  repeat (match goal with
          | |- context [?a <=? ?b] =>
              let E := fresh in destruct (Z.leb_spec a b) as [E|E]
          end; simpl; try discriminate).
  intros [= <-]. simpl. repeat split; assumption.
Qed.

Lemma check_date_fields_inv (y m d : Z) :
  _check_date_fields y m d = inr tt ->
  MINYEAR <= y <= MAXYEAR /\ 1 <= m <= 12 /\ 1 <= d <= _days_in_month y m.
Proof.
  unfold _check_date_fields.
  repeat (match goal with
          | |- context [?a <=? ?b] =>
              let E := fresh in destruct (Z.leb_spec a b) as [E|E]
          end; simpl; try discriminate).
  intros _. repeat split; assumption.
Qed.

Ltac all_digits_hyps :=
  first [ assumption
        | cbn [all_digits];
          repeat match goal with
                 | H : digit ?c = true |- context [digit ?c] => rewrite H
                 end;
          reflexivity ].

Lemma valid_in_pattern (t : datetime) :
  valid_datetime t ->
  between 1 12 (month t) && between 1 31 (day t) && between 0 23 (hour t)
  && between 0 59 (minute t) && between 0 61 (second t) = true.
Proof.
  intros (Hy & Hm & Hd & Hh & Hmi & Hs & Hus).
  pose proof (days_in_month_le (year t) (month t)).
  unfold between. rewrite !andb_true_iff, !Z.leb_le. lia.
Qed.

Lemma _strptime_datetime_fixed (s : string) (t : datetime) :
  fixed_format s t ->
  (valid_datetime t -> _strptime_datetime s = inr t) /\
  (~ valid_datetime t -> exists e, _strptime_datetime s = inl e).
Proof.
  intros H. destruct H as [y1 y2 y3 y4 m1 m2 d1 d2 h1 h2 n1 n2 s1 s2 f1 f2 f3 f4 f5 f6 H].
  unfold _strptime_datetime, _strptime.
  pose proof (regex_match_fixed _ _ _ _ _ _ _ _ _ _ _ _ _ _ _ _ _ _ _ _ H) as E.
  cbv zeta in E. unfold str in E. rewrite E. clear E.
  set (t := mkDatetime _ _ _ _ _ _ _).
  destruct (between 1 12 (number [m1; m2]) && between 1 31 (number [d1; d2])
            && between 0 23 (number [h1; h2]) && between 0 59 (number [n1; n2])
            && between 0 61 (number [s1; s2])) eqn:B.
  - digit_hyps H.
    cbn [rest groups fixed_groups group String.eqb Ascii.eqb Bool.eqb negb
         string_of_list_ascii String.length Nat.sub zeros String.append].
    rewrite !int_digits by all_digits_hyps.
    change (digits_value 0 (String y1 (String y2 (String y3 (String y4 "")))))
      with (year t).
    change (digits_value 0 (String m1 (String m2 ""))) with (month t).
    change (digits_value 0 (String d1 (String d2 ""))) with (day t).
    change (digits_value 0 (String h1 (String h2 ""))) with (hour t).
    change (digits_value 0 (String n1 (String n2 ""))) with (minute t).
    change (digits_value 0 (String s1 (String s2 ""))) with (second t).
    change (digits_value 0 (String f1 (String f2 (String f3 (String f4
              (String f5 (String f6 "")))))))
      with (microsecond t).
    split.
    + intros V.
      destruct (datetime_new_valid (year t) (month t) (day t) (hour t)
                  (minute t) (second t) (microsecond t) V) as [E1 E2].
      rewrite E1. cbv beta iota. exact E2.
    + intros NV. destruct (_check_date_fields _ _ _) as [e|[]]; [now exists e|].
      cbv beta iota.
      destruct (datetime_new _ _ _ _ _ _ _) as [e|t'] eqn:E; [now exists e|].
      apply datetime_new_inv in E. destruct E as [-> V]. contradiction.
  - split.
    + intros V. apply valid_in_pattern in V. unfold t in V. simpl in V. congruence.
    + intros _. eexists. reflexivity.
Qed.

Lemma fixed_format_not_sentinel (s : string) (t : datetime) :
  fixed_format s t -> py_in (PStr s) sentinels = false.
Proof.
  intros H. destruct H as [y1 y2 y3 y4 m1 m2 d1 d2 h1 h2 n1 n2 s1 s2 f1 f2 f3 f4 f5 f6 H].
  digit_hyps H. each_digit Hc; reflexivity.
Qed.

(** The model of [strptime] on the inputs tried with CPython 3.11. *)
Example strptime_examples :
  map (fun s => _strptime_datetime s)
    ["2024-01-01 10:00:00.000000"; "2024-1-1 1:2:3.5"; "2024-02-29 23:59:59.999999";
     "2024-01- 5 10:00:00.000000"]
  = map inr
    [mkDatetime 2024 1 1 10 0 0 0; mkDatetime 2024 1 1 1 2 3 500000;
     mkDatetime 2024 2 29 23 59 59 999999; mkDatetime 2024 1 5 10 0 0 0]
  /\ map (fun s => safe_timestamp (PStr s))
       ["2024-02-30 10:00:00.000000"; "0000-01-01 10:00:00.000000";
        "2024-01-01 10:00:60.000000"; "2024-01-01 10:00:00.0000001";
        "2024-01-01 24:00:00.0"; "2024-13-01 10:00:00.0"; "2024-12-32 10:00:00.0";
        "2024-01-01T10:00:00.000000"; " 2024-01-01 10:00:00.000000";
        "2024-01-01 10:00:00."; "2024-01-01 10:00:00"; "024-01-01 10:00:00.000000"]
     = repeat PNone 12.
Proof. split; vm_compute; reflexivity. Qed.

(** ** The field sanitizer *)

(** C1. For every field of a raw device record whose value is one of
    the sentinel forms [None], [""], ["null"], ["NULL"], ["NA"], the
    mapping built by lines 85 to 89 of [upsert_device] holds the numeric
    default 0 when the field is neither [gpsiat] nor [bmsiat], and
    [None] when it is one of the two. The stamping of line 92 leaves
    every field but [created_at] as it is. *)
Theorem sanitize_sentinel_fields (device : dict) (k : string) (v : pyval) :
  dict_get device k = Some v ->
  is_sentinel v ->
  (k <> "gpsiat" -> k <> "bmsiat" ->
   dict_get (sanitize_fields device) k = Some (PInt 0))
  /\ (k = "gpsiat" \/ k = "bmsiat" ->
      dict_get (sanitize_fields device) k = Some PNone)
  /\ (forall now, k <> "created_at" ->
      dict_get (sanitize now device) k = dict_get (sanitize_fields device) k).
Proof.
  intros Hk Hv. split; [|split].
  - intros Hg Hb. rewrite sanitize_fields_other, Hk by assumption. simpl.
    now rewrite safe_sentinel.
  - intros [->| ->].
    + rewrite sanitize_fields_gpsiat, (py_get_some _ _ _ Hk).
      now rewrite safe_timestamp_sentinel.
    + rewrite sanitize_fields_bmsiat, (py_get_some _ _ _ Hk).
      now rewrite safe_timestamp_sentinel.
  - intros now Hc. now apply sanitize_other.
Qed.

(** A record with a blank voltage and the literal "NA" as its GPS time. *)
Lemma sanitize_sentinel_fields_witness :
  (dict_get (sanitize_fields [("voltage", PNone); ("gpsiat", PStr "NA")]) "voltage"
   = Some (PInt 0))
  /\ (dict_get (sanitize_fields [("voltage", PNone); ("gpsiat", PStr "NA")]) "gpsiat"
      = Some PNone).
Proof.
  split.
  - apply (sanitize_sentinel_fields
             [("voltage", PNone); ("gpsiat", PStr "NA")] "voltage" PNone);
      [reflexivity | left; reflexivity | discriminate | discriminate].
  - apply (sanitize_sentinel_fields
             [("voltage", PNone); ("gpsiat", PStr "NA")] "gpsiat" (PStr "NA"));
      [reflexivity | do 4 right; reflexivity | left; reflexivity].
Defined.

(** C7. [safe] is the identity on every value that is not a sentinel
    form, whatever the default; so a field that is neither [gpsiat] nor
    [bmsiat] and whose value is not a sentinel keeps its value, of
    whatever type, in the mapping of lines 85 to 89. *)
Theorem safe_identity (value default : pyval) :
  ~ is_sentinel value ->
  safe value default = value
  /\ (forall device k,
        dict_get device k = Some value -> k <> "gpsiat" -> k <> "bmsiat" ->
        dict_get (sanitize_fields device) k = Some value).
Proof.
  intros H. split.
  - now apply safe_not_sentinel.
  - intros device k Hk Hg Hb.
    rewrite sanitize_fields_other, Hk by assumption. simpl.
    now rewrite safe_not_sentinel.
Qed.

Lemma not_sentinel_latitude : ~ is_sentinel (PStr "12.34").
Proof. intros [H|[H|[H|[H|H]]]]; discriminate H. Qed.

(** The latitude ["12.34"] of the end-to-end scenario stays a string. *)
Lemma safe_identity_witness :
  safe (PStr "12.34") (PInt 0) = PStr "12.34"
  /\ dict_get (sanitize_fields [("latitude", PStr "12.34")]) "latitude"
     = Some (PStr "12.34").
Proof.
  destruct (safe_identity (PStr "12.34") (PInt 0) not_sentinel_latitude) as [H1 H2].
  split.
  - exact H1.
  - apply H2; [reflexivity | discriminate | discriminate].
Defined.

(** ** The timestamp sanitizer *)

Lemma safe_timestamp_cases (v : pyval) :
  safe_timestamp v = PNone \/ exists t, safe_timestamp v = PDatetime t.
Proof.
  unfold safe_timestamp. destruct (py_in v sentinels); [now left|].
  destruct (strptime v) as [e|t]; [now left | right; now exists t].
Qed.

Lemma strptime_valid (v : pyval) (t : datetime) :
  strptime v = inr t -> (exists s, v = PStr s) /\ valid_datetime t.
Proof.
  destruct v; try discriminate. simpl. intros H. split; [now exists s|].
  unfold _strptime_datetime in H.
  destruct (_strptime s) as [e|[[[[[[y m] d] hh] mi] ss] f]]; [discriminate|].
  apply datetime_new_inv in H. tauto.
Qed.

(** C2, as the code has it. A string in the format
    [YYYY-MM-DD HH:MM:SS.ffffff] whose fields are those of an instant is
    turned into exactly that [datetime]. A sentinel, a value that is
    not a string, a string that [strptime] does not accept, and a string
    in the format whose fields are not those of an instant, all give
    [None]; a string that [strptime] accepts gives the [datetime] it
    parses. The result is never 0, and whenever it is a [datetime], the
    input was a string and the [datetime] is an instant. *)
Theorem safe_timestamp_spec :
  (forall s t, fixed_format s t -> valid_datetime t ->
               safe_timestamp (PStr s) = PDatetime t)
  /\ (forall v, is_sentinel v -> safe_timestamp v = PNone)
  /\ (forall v, (forall s, v <> PStr s) -> safe_timestamp v = PNone)
  /\ (forall s e, strptime (PStr s) = inl e -> safe_timestamp (PStr s) = PNone)
  /\ (forall s t, ~ is_sentinel (PStr s) -> strptime (PStr s) = inr t ->
                  safe_timestamp (PStr s) = PDatetime t)
  /\ (forall s t, fixed_format s t -> ~ valid_datetime t ->
                  safe_timestamp (PStr s) = PNone)
  /\ (forall v, safe_timestamp v <> PInt 0)
  /\ (forall v t, safe_timestamp v = PDatetime t ->
                  (exists s, v = PStr s) /\ valid_datetime t).
Proof.
  split; [|split; [|split; [|split; [|split; [|split; [|split]]]]]].
  - intros s t F V. unfold safe_timestamp, strptime.
    rewrite (fixed_format_not_sentinel s t F).
    destruct (_strptime_datetime_fixed s t F) as [E _]. now rewrite (E V).
  - apply safe_timestamp_sentinel.
  - intros v H. unfold safe_timestamp, strptime.
    destruct (py_in v sentinels); [reflexivity|].
    destruct v; try reflexivity. now destruct (H s).
  - intros s e E. unfold safe_timestamp. rewrite E.
    now destruct (py_in (PStr s) sentinels).
  - intros s t N E. unfold safe_timestamp. rewrite E.
    apply py_in_sentinels_false in N. now rewrite N.
  - intros s t F NV. unfold safe_timestamp, strptime.
    rewrite (fixed_format_not_sentinel s t F).
    destruct (_strptime_datetime_fixed s t F) as [_ E].
    destruct (E NV) as [e ->]. reflexivity.
  - intros v H. destruct (safe_timestamp_cases v) as [E|[t E]];
      rewrite E in H; discriminate H.
  - intros v t. unfold safe_timestamp.
    destruct (py_in v sentinels); [discriminate|].
    destruct (strptime v) as [e|t'] eqn:E; [discriminate|].
    intros [= <-]. now apply strptime_valid.
Qed.

Lemma fixed_format_example :
  fixed_format "2024-01-01 10:00:00.000000" (mkDatetime 2024 1 1 10 0 0 0).
Proof.
  exact (FixedFormat "2" "0" "2" "4" "0" "1" "0" "1" "1" "0" "0" "0" "0" "0"
                     "0" "0" "0" "0" "0" "0" eq_refl).
Qed.

Lemma valid_datetime_example : valid_datetime (mkDatetime 2024 1 1 10 0 0 0).
Proof. repeat split; vm_compute; discriminate. Qed.

(** The GPS time of the end-to-end scenario. *)
Lemma safe_timestamp_spec_witness :
  safe_timestamp (PStr "2024-01-01 10:00:00.000000")
  = PDatetime (mkDatetime 2024 1 1 10 0 0 0).
Proof.
  exact (proj1 safe_timestamp_spec _ _ fixed_format_example valid_datetime_example).
Defined.

(** C2, as the specification states it, fails: a string that is not in
    the fixed format (fields without padding, one fraction digit) is
    parsed to a [datetime] and not turned into [None]. *)
Lemma safe_timestamp_parses_unpadded :
  (forall t, ~ fixed_format "2024-1-1 1:2:3.5" t)
  /\ safe_timestamp (PStr "2024-1-1 1:2:3.5")
     = PDatetime (mkDatetime 2024 1 1 1 2 3 500000).
Proof.
  split.
  - intros t H. inversion H.
  - reflexivity.
Qed.

(** ** One call of [upsert_device] *)

Lemma nth_set_nth {A : Type} (n : nat) (a d : A) (l : list A) :
  (n < length l)%nat -> nth n (set_nth n a l) d = a.
Proof.
  revert n. induction l as [|x l IH]; intros [|n] H; simpl in *; try lia; auto.
  apply IH. lia.
Qed.

Lemma set_nth_set_nth {A : Type} (n : nat) (a b : A) (l : list A) :
  set_nth n a (set_nth n b l) = set_nth n a l.
Proof.
  revert n. induction l as [|x l IH]; intros [|n]; simpl; auto. now rewrite IH.
Qed.

Lemma length_set_nth {A : Type} (n : nat) (a : A) (l : list A) :
  length (set_nth n a l) = length l.
Proof.
  revert n. induction l as [|x l IH]; intros [|n]; simpl; auto.
Qed.

Lemma open_in_range (w : world) (conn : nat) :
  status (conn_of w conn) = Open -> (conn < length (conns w))%nat.
Proof.
  unfold conn_of. intros H.
  destruct (Nat.lt_ge_cases conn (length (conns w))) as [L|G]; [exact L|].
  rewrite nth_overflow in H by exact G. discriminate H.
Qed.

Ltac run :=
  unfold upsert_device, cursor, execute, commit, rollback, cursor_close, close,
    require_open, get_conn, set_conn, print, sleep, emit, lift, try_finally,
    try_except, bind, ret, raise, conn_of; cbn.

Lemma upsert_device_not_open (conn : nat) (env : row_env) (device : pyval) (w : world) :
  status (conn_of w conn) <> Open ->
  upsert_device conn env device w
  = (inl (InterfaceError "connection already closed"), with_events w [Upsert device]).
Proof.
  intros H. unfold conn_of in H. run.
  destruct (nth conn (conns w) _) as [[] p]; try reflexivity. now destruct H.
Qed.

Lemma upsert_device_not_dict (conn : nat) (env : row_env) (device : pyval) (w : world) :
  status (conn_of w conn) = Open ->
  (forall d, device <> PDict d) ->
  upsert_device conn env device w
  = (inr tt,
     with_events (with_conn w conn (mkConnection Open []))
       [Upsert device; Rollback; Print (DbError (AttributeError "items")); CursorClose]).
Proof.
  intros H N. unfold conn_of in H. run.
  destruct (nth conn (conns w) _) as [st p] eqn:E. simpl in H. subst st. cbn.
  destruct device; try (now destruct (N d)); cbn; rewrite E; cbn;
    unfold with_events, with_conn; cbn; rewrite <- !app_assoc; reflexivity.
Qed.

(** *** Filling the placeholders *)

Lemma bind_params_get (names : list string) (data : dict) (r : row) (k : string) :
  bind_params names data = inr r -> In k names -> dict_get r k = dict_get data k.
Proof.
  revert r. induction names as [|n names IH]; intros r B H; [contradiction|].
  simpl in B. destruct (dict_get data n) as [v|] eqn:E; [|discriminate].
  destruct (adapt v) as [e|[]]; [discriminate|].
  destruct (bind_params names data) as [e|r']; [discriminate|].
  injection B as <-. simpl.
  destruct (String.eqb n k) eqn:N.
  - apply String.eqb_eq in N. now subst.
  - apply IH; [reflexivity|]. destruct H as [->|H]; [|exact H].
    now rewrite String.eqb_refl in N.
Qed.

Lemma bind_params_names (names : list string) (data : dict) (r : row) :
  bind_params names data = inr r -> map fst r = names.
Proof.
  revert r. induction names as [|n names IH]; intros r B; simpl in B.
  - now injection B as <-.
  - destruct (dict_get data n) as [v|]; [|discriminate].
    destruct (adapt v) as [e|[]]; [discriminate|].
    destruct (bind_params names data) as [e|r']; [discriminate|].
    injection B as <-. simpl. f_equal. now apply IH.
Qed.

(** The statement is built exactly when the mapping holds every
    placeholder with a value that can be adapted. *)
Lemma bind_params_ok_iff (names : list string) (data : dict) :
  (exists r, bind_params names data = inr r)
  <-> (forall c, In c names ->
                 exists v, dict_get data c = Some v /\ adapt v = inr tt).
Proof.
  induction names as [|n names IH]; simpl.
  - split; [intros _ c [] | intros _; now exists []].
  - split.
    + intros [r B] c Hc.
      destruct (dict_get data n) as [v|] eqn:E; [|discriminate].
      destruct (adapt v) as [e|[]] eqn:A; [discriminate|].
      destruct (bind_params names data) as [e|r'] eqn:B'; [discriminate|].
      destruct Hc as [<-|Hc]; [now exists v|].
      apply IH; [now exists r' | exact Hc].
    + intros H. destruct (H n) as (v & E & A); [now left|]. rewrite E, A.
      destruct (proj2 IH) as [r ->]; [intros c Hc; apply H; now right|].
      now eexists.
Qed.

(** The error of a statement that cannot be built is the [KeyError] of
    a placeholder the mapping does not hold, or the error of adapting
    the value of a placeholder. *)
Lemma bind_params_error (names : list string) (data : dict) (e : exn) :
  bind_params names data = inl e ->
  exists c, In c names
            /\ ((dict_get data c = None /\ e = KeyError c)
                \/ exists v, dict_get data c = Some v /\ adapt v = inl e).
Proof.
  induction names as [|n names IH]; simpl; [discriminate|].
  destruct (dict_get data n) as [v|] eqn:E.
  - destruct (adapt v) as [e'|[]] eqn:A.
    + intros [= <-]. exists n. split; [now left|]. right. now exists v.
    + destruct (bind_params names data) as [e'|r]; [|discriminate].
      intros [= <-]. destruct IH as (c & Hc & H); [reflexivity|].
      exists c. split; [now right | exact H].
  - intros [= <-]. exists n. split; [now left|]. now left.
Qed.

Lemma bind_params_missing (names : list string) (data : dict) (c : string) :
  In c names -> dict_get data c = None ->
  exists e, bind_params names data = inl e.
Proof.
  intros Hc E. destruct (bind_params names data) as [e|r] eqn:B; [now exists e|].
  destruct (proj1 (bind_params_ok_iff names data) (ex_intro _ r B) c Hc)
    as (v & E' & _).
  congruence.
Qed.

Lemma sentinel_adapts (v : pyval) : is_sentinel v -> adapt v = inr tt.
Proof. intros [-> | [-> | [-> | [-> | ->]]]]; reflexivity. Qed.

(** [safe] neither makes a value adaptable nor spoils one. *)
Lemma adapt_safe (v : pyval) :
  adapt (safe v safe_default) = inr tt <-> adapt v = inr tt.
Proof.
  unfold safe. destruct (py_in v sentinels) eqn:E; [|tauto].
  apply py_in_sentinels in E. rewrite (sentinel_adapts v E). simpl. tauto.
Qed.

Lemma adapt_safe_timestamp (v : pyval) : adapt (safe_timestamp v) = inr tt.
Proof. destruct (safe_timestamp_cases v) as [-> | [t ->]]; reflexivity. Qed.

Lemma set_by_code_dec (k : string) : {set_by_code k} + {~ set_by_code k}.
Proof.
  unfold set_by_code.
  destruct (string_dec k "gpsiat"); [left; tauto|].
  destruct (string_dec k "bmsiat"); [left; tauto|].
  destruct (string_dec k "created_at"); [left; tauto|].
  right. tauto.
Qed.

Lemma sanitize_get_none (now : datetime) (d : dict) (k : string) :
  dict_get (sanitize now d) k = None
  <-> dict_get d k = None /\ ~ set_by_code k.
Proof.
  unfold set_by_code. split.
  - intros H. destruct (string_dec k "created_at") as [->|Nc].
    { now rewrite sanitize_created_at in H. }
    rewrite sanitize_other in H by exact Nc.
    destruct (string_dec k "gpsiat") as [->|Ng].
    { now rewrite sanitize_fields_gpsiat in H. }
    destruct (string_dec k "bmsiat") as [->|Nb].
    { now rewrite sanitize_fields_bmsiat in H. }
    rewrite sanitize_fields_other in H by assumption.
    split; [|tauto]. destruct (dict_get d k); [discriminate | reflexivity].
  - intros [H N].
    rewrite sanitize_other, sanitize_fields_other by tauto. now rewrite H.
Qed.

Lemma adapt_safe_error (v : pyval) (e : exn) :
  adapt (safe v safe_default) = inl e -> adapt v = inl e.
Proof.
  unfold safe. destruct (py_in v sentinels); [discriminate | tauto].
Qed.

(** The error of an INSERT that cannot be built for a record: the
    [KeyError] of a column the record lacks, or the error of adapting a
    value of the record. *)
Lemma sanitize_bind_error (now : datetime) (d : dict) (e : exn) :
  bind_params columns (sanitize now d) = inl e ->
  (exists k, In k columns /\ dict_get d k = None /\ e = KeyError k)
  \/ (exists k v, In k columns /\ ~ set_by_code k
                  /\ dict_get d k = Some v /\ adapt v = inl e).
Proof.
  intros B. destruct (bind_params_error _ _ _ B) as (c & Hc & [[E Ee]|(v & E & F)]).
  - left. exists c. apply sanitize_get_none in E. tauto.
  - right. exists c.
    destruct (string_dec c "created_at") as [->|Nc].
    { rewrite sanitize_created_at in E. injection E as <-. discriminate F. }
    rewrite sanitize_other in E by exact Nc.
    destruct (string_dec c "gpsiat") as [->|Ng].
    { rewrite sanitize_fields_gpsiat in E. injection E as <-.
      rewrite adapt_safe_timestamp in F. discriminate F. }
    destruct (string_dec c "bmsiat") as [->|Nb].
    { rewrite sanitize_fields_bmsiat in E. injection E as <-.
      rewrite adapt_safe_timestamp in F. discriminate F. }
    rewrite sanitize_fields_other in E by assumption.
    destruct (dict_get d c) as [v0|]; [|discriminate]. simpl in E. injection E as <-.
    exists v0. unfold set_by_code. repeat split; auto; [tauto|].
    now apply adapt_safe_error.
Qed.

(** The INSERT of a record reaches the server exactly when the record
    holds every column the code does not set itself, each with a value
    that can be adapted. *)
Lemma storable_iff (now : datetime) (d : dict) :
  complete d /\ adaptable d
  <-> exists r, bind_params columns (sanitize now d) = inr r.
Proof.
  rewrite bind_params_ok_iff. unfold complete, adaptable, set_by_code. split.
  - intros [C A] c Hc.
    destruct (string_dec c "created_at") as [->|Nc].
    { eexists. split; [apply sanitize_created_at | reflexivity]. }
    rewrite sanitize_other by exact Nc.
    destruct (string_dec c "gpsiat") as [->|Ng].
    { eexists. split; [apply sanitize_fields_gpsiat | apply adapt_safe_timestamp]. }
    destruct (string_dec c "bmsiat") as [->|Nb].
    { eexists. split; [apply sanitize_fields_bmsiat | apply adapt_safe_timestamp]. }
    rewrite sanitize_fields_other by assumption.
    destruct (dict_get d c) as [v|] eqn:E.
    + exists (safe v safe_default). split; [reflexivity|].
      apply adapt_safe. apply (A c v Hc); [tauto | exact E].
    + exfalso. apply (C c Hc); [tauto | exact E].
  - intros H. split.
    + intros c Hc N E. destruct (H c Hc) as (v & E' & _).
      rewrite sanitize_other, sanitize_fields_other, E in E' by tauto. discriminate.
    + intros c v Hc N E. destruct (H c Hc) as (v' & E' & A).
      rewrite sanitize_other, sanitize_fields_other, E in E' by tauto.
      injection E' as <-. now apply adapt_safe.
Qed.

Opaque bind_params sanitize.

Ltac open_conn H E :=
  let st := fresh "st" in let p := fresh "p" in
  unfold conn_of in *;
  match type of H with
  | status (nth ?n ?l ?d) = Open =>
      destruct (nth n l d) as [st p] eqn:E; simpl in H; subst st
  end.

Ltac tidy :=
  unfold with_events, with_conn; cbn;
  rewrite ?set_nth_set_nth, <- ?app_assoc; cbn; try reflexivity.

Section Upsert.

Variables (conn : nat) (env : row_env) (d : dict) (w : world).
Hypothesis conn_open : status (conn_of w conn) = Open.

Let data : dict := sanitize (stamp env) d.
Let p : list row := pending (conn_of w conn).

Lemma upsert_device_key_error (e : exn) :
  bind_params columns data = inl e ->
  upsert_device conn env (PDict d) w
  = (inr tt, with_events (with_conn w conn (mkConnection Open []))
               (rolled_back (PDict d) data e)).
Proof.
  intros B. pose proof (open_in_range _ _ conn_open) as L.
  subst data p. open_conn conn_open E. run. rewrite E. cbn. rewrite E, B. cbn.
  rewrite E. cbn. tidy.
Qed.

Lemma upsert_device_execute_refused (r : row) (e : exn) :
  bind_params columns data = inr r ->
  on_execute env = Refused e ->
  upsert_device conn env (PDict d) w
  = (inr tt, with_events (with_conn w conn (mkConnection Open []))
               (rolled_back (PDict d) data e)).
Proof.
  intros B X. pose proof (open_in_range _ _ conn_open) as L.
  subst data p. open_conn conn_open E. run. rewrite E. cbn. rewrite E, B, X. cbn.
  rewrite E. cbn. tidy.
Qed.

Lemma upsert_device_commit_refused (r : row) (e : exn) :
  bind_params columns data = inr r ->
  on_execute env = Done ->
  on_commit env = Refused e ->
  upsert_device conn env (PDict d) w
  = (inr tt, with_events (with_conn w conn (mkConnection Open []))
               (rolled_back (PDict d) data e)).
Proof.
  intros B X C. pose proof (open_in_range _ _ conn_open) as L.
  subst data p. open_conn conn_open E. run. rewrite E. cbn. rewrite E, B, X. cbn.
  rewrite ?set_nth_set_nth, nth_set_nth by (rewrite ?length_set_nth; exact L). cbn. rewrite C. cbn.
  rewrite ?set_nth_set_nth, nth_set_nth by (rewrite ?length_set_nth; exact L). cbn. tidy.
Qed.

Lemma upsert_device_inserted (r : row) :
  bind_params columns data = inr r ->
  on_execute env = Done ->
  on_commit env = Done ->
  upsert_device conn env (PDict d) w
  = (inr tt,
     with_events
       (mkWorld (table w ++ p ++ [r]) (set_nth conn (mkConnection Open []) (conns w))
                (trace w))
       [Upsert (PDict d); Execute data; Commit;
        Print (Inserted (py_get d "imei") (printed_at env)); CursorClose]).
Proof.
  intros B X C. pose proof (open_in_range _ _ conn_open) as L.
  subst data p. open_conn conn_open E. run. rewrite E. cbn. rewrite E, B, X. cbn.
  rewrite ?set_nth_set_nth, nth_set_nth by (rewrite ?length_set_nth; exact L). cbn. rewrite C. cbn. tidy.
Qed.

Lemma upsert_device_execute_dropped (r : row) :
  bind_params columns data = inr r ->
  loses_connection (on_execute env) ->
  upsert_device conn env (PDict d) w
  = (inl (InterfaceError "connection already closed"),
     with_events (with_conn w conn (mkConnection Lost p))
       [Upsert (PDict d); Execute data; CursorClose]).
Proof.
  intros B [e X]. pose proof (open_in_range _ _ conn_open) as L.
  subst data p. open_conn conn_open E. run. rewrite E. cbn. rewrite E, B.
  destruct X as [X|X]; rewrite X; cbn;
    rewrite ?set_nth_set_nth, nth_set_nth by (rewrite ?length_set_nth; exact L);
    cbn; tidy.
Qed.

Lemma upsert_device_commit_unacknowledged (r : row) (e : exn) :
  bind_params columns data = inr r ->
  on_execute env = Done ->
  on_commit env = Unacknowledged e ->
  upsert_device conn env (PDict d) w
  = (inl (InterfaceError "connection already closed"),
     with_events
       (mkWorld (table w ++ p ++ [r]) (set_nth conn (mkConnection Lost []) (conns w))
                (trace w))
       [Upsert (PDict d); Execute data; CursorClose]).
Proof.
  intros B X C. pose proof (open_in_range _ _ conn_open) as L.
  subst data p. open_conn conn_open E. run. rewrite E. cbn. rewrite E, B, X. cbn.
  rewrite ?set_nth_set_nth, nth_set_nth by (rewrite ?length_set_nth; exact L). cbn. rewrite C. cbn.
  rewrite ?set_nth_set_nth, nth_set_nth by (rewrite ?length_set_nth; exact L). cbn. tidy.
Qed.

Lemma upsert_device_commit_dropped (r : row) (e : exn) :
  bind_params columns data = inr r ->
  on_execute env = Done ->
  on_commit env = Dropped e ->
  upsert_device conn env (PDict d) w
  = (inl (InterfaceError "connection already closed"),
     with_events (with_conn w conn (mkConnection Lost (p ++ [r])))
       [Upsert (PDict d); Execute data; CursorClose]).
Proof.
  intros B X C. pose proof (open_in_range _ _ conn_open) as L.
  subst data p. open_conn conn_open E. run. rewrite E. cbn. rewrite E, B, X. cbn.
  rewrite ?set_nth_set_nth, nth_set_nth by (rewrite ?length_set_nth; exact L). cbn. rewrite C. cbn.
  rewrite ?set_nth_set_nth, nth_set_nth by (rewrite ?length_set_nth; exact L). cbn. tidy.
Qed.

End Upsert.

Transparent bind_params sanitize.

Lemma conn_of_with_events (w : world) (evs : list event) (conn : nat) :
  conn_of (with_events w evs) conn = conn_of w conn.
Proof. reflexivity. Qed.

Lemma conn_of_with_conn (w : world) (conn : nat) (c : connection) :
  (conn < length (conns w))%nat -> conn_of (with_conn w conn c) conn = c.
Proof. intros L. unfold conn_of, with_conn. simpl. now apply nth_set_nth. Qed.

Lemma is_dict (device : pyval) :
  (exists d, device = PDict d) \/ (forall d, device <> PDict d).
Proof. destruct device; try (right; discriminate). left. now exists d. Qed.

(** A call of [upsert_device] on an open connection that the server
    does not drop returns, with the connection open and no transaction
    in progress; its events and its row are those of the attempt. *)
Lemma upsert_device_usable (conn : nat) (renv : row_env) (device : pyval) (w : world) :
  status (conn_of w conn) = Open ->
  keeps_connection (on_execute renv) ->
  keeps_connection (on_commit renv) ->
  exists w',
    upsert_device conn renv device w = (inr tt, w')
    /\ status (conn_of w' conn) = Open
    /\ pending (conn_of w' conn) = []
    /\ length (conns w') = length (conns w)
    /\ trace w' = trace w ++ attempt_events renv device
    /\ (pending (conn_of w conn) = [] ->
        table w' = table w ++ attempt_rows renv device).
Proof.
  intros O KE KC. pose proof (open_in_range _ _ O) as L.
  assert (Hc : forall evs,
             conn_of (with_events (with_conn w conn (mkConnection Open [])) evs) conn
             = mkConnection Open []).
  { intros evs. rewrite conn_of_with_events. now rewrite conn_of_with_conn. }
  destruct (is_dict device) as [[d ->]|N].
  - unfold attempt_events, attempt_rows, insert_result.
    destruct (bind_params columns (sanitize (stamp renv) d)) as [e|r] eqn:B.
    { eexists. split; [eapply upsert_device_key_error; eassumption|].
      rewrite Hc. simpl. rewrite length_set_nth, app_nil_r. auto. }
    cbv beta iota.
    destruct (on_execute renv) as [|e|e|e] eqn:X; try contradiction.
    + destruct (on_commit renv) as [|e|e|e] eqn:C; try contradiction.
      * eexists. split; [eapply upsert_device_inserted; eassumption|].
        unfold conn_of, with_events. simpl.
        rewrite nth_set_nth, length_set_nth by exact L.
        repeat split; auto. intros P. unfold conn_of in P. now rewrite P.
      * eexists. split; [eapply upsert_device_commit_refused; eassumption|].
        rewrite Hc. simpl. rewrite length_set_nth, app_nil_r. auto.
    + eexists. split; [eapply upsert_device_execute_refused; eassumption|].
      rewrite Hc. simpl. rewrite length_set_nth, app_nil_r. auto.
  - eexists. split; [eapply upsert_device_not_dict; eassumption|].
    rewrite Hc. simpl. rewrite length_set_nth.
    destruct device; try (now destruct (N d)); simpl; rewrite app_nil_r; auto.
Qed.

Lemma for_each_usable (conn : nat) (env : tick_env) (devices : list pyval) :
  forall (i : nat) (w : world),
    status (conn_of w conn) = Open ->
    (forall j, (j < length devices)%nat ->
               keeps_connection (on_execute (on_row env (i + j)))
               /\ keeps_connection (on_commit (on_row env (i + j)))) ->
    exists w',
      for_each conn env i devices w = (inr tt, w')
      /\ status (conn_of w' conn) = Open
      /\ length (conns w') = length (conns w)
      /\ trace w' = trace w ++ loop_events env i devices
      /\ (pending (conn_of w conn) = [] ->
          pending (conn_of w' conn) = []
          /\ table w' = table w ++ loop_rows env i devices).
Proof.
  induction devices as [|device devices IH]; intros i w O K.
  - exists w. simpl. rewrite !app_nil_r. repeat split; auto.
  - destruct (K 0%nat) as [KE KC]; [simpl; lia|]. rewrite Nat.add_0_r in KE, KC.
    destruct (upsert_device_usable conn (on_row env i) device w O KE KC)
      as (w1 & E1 & O1 & P1 & L1 & T1 & R1).
    destruct (IH (S i) w1 O1) as (w2 & E2 & O2 & L2 & T2 & R2).
    { intros j Hj. replace (S i + j)%nat with (i + S j)%nat by lia.
      apply K. simpl. lia. }
    exists w2. simpl. unfold bind. rewrite E1, E2.
    split; [reflexivity|]. split; [exact O2|]. split; [congruence|]. split.
    + rewrite T2, T1. now rewrite app_assoc.
    + intros P. destruct (R2 P1) as [P2 Tb]. split; [exact P2|].
      rewrite Tb, (R1 P). now rewrite app_assoc.
Qed.

(** ** One tick *)

Lemma connect_ok (w : world) :
  connect None w
  = (inr (length (conns w)),
     mkWorld (table w) (conns w ++ [mkConnection Open []])
             (trace w ++ [Connect (length (conns w))])).
Proof. reflexivity. Qed.

Lemma fetch_api_data_post_fails (env : tick_env) (w : world) (e : exn) :
  on_post env = inl e ->
  fetch_api_data env w = (inl e, with_events w [Post]).
Proof. intros E. unfold fetch_api_data, bind, emit, lift. cbn. now rewrite E. Qed.

Lemma fetch_api_data_ok (env : tick_env) (w : world) (res : response) (obj v : pyval) :
  on_post env = inr res ->
  200 <= status_code res < 300 ->
  json res = inr obj ->
  get_data obj = inr v ->
  fetch_api_data env w = (inr v, with_events w [Post]).
Proof.
  intros E S J G. unfold fetch_api_data, bind, emit, lift, raise_for_status. cbn.
  rewrite E. cbn.
  destruct (Z.leb_spec 400 (status_code res)); [lia|]. cbn.
  rewrite J. cbn. now rewrite G.
Qed.


Lemma conn_of_new (w : world) (t : list row) (tr : list event) (c : connection) :
  conn_of (mkWorld t (conns w ++ [c]) tr) (length (conns w)) = c.
Proof. unfold conn_of. simpl. rewrite app_nth2 by lia. now rewrite Nat.sub_diag. Qed.


Lemma attempts_app (tr1 tr2 : list event) :
  attempts (tr1 ++ tr2) = attempts tr1 ++ attempts tr2.
Proof.
  induction tr1 as [|ev tr1 IH]; simpl; [reflexivity|].
  destruct ev; simpl; now rewrite IH.
Qed.

Lemma attempts_attempt_events (renv : row_env) (device : pyval) :
  attempts (attempt_events renv device) = [device].
Proof.
  unfold attempt_events.
  destruct device; try reflexivity. now destruct (insert_result renv d).
Qed.

Lemma attempts_loop_events (env : tick_env) (devices : list pyval) (i : nat) :
  attempts (loop_events env i devices) = devices.
Proof.
  revert i. induction devices as [|device devices IH]; intros i; simpl; [reflexivity|].
  now rewrite attempts_app, attempts_attempt_events, IH.
Qed.

Lemma for_each_app (conn : nat) (env : tick_env) (l1 l2 : list pyval) :
  forall (i : nat) (w : world),
    for_each conn env i (l1 ++ l2) w
    = match for_each conn env i l1 w with
      | (inl e, w1) => (inl e, w1)
      | (inr _, w1) => for_each conn env (i + length l1) l2 w1
      end.
Proof.
  induction l1 as [|d l1 IH]; intros i w; simpl.
  - now rewrite Nat.add_0_r.
  - unfold bind. destruct (upsert_device conn (on_row env i) d w) as [[e|[]] w1];
      [reflexivity|].
    rewrite IH. replace (S i + length l1)%nat with (i + S (length l1))%nat by lia.
    reflexivity.
Qed.

(** When the connection is lost during the INSERT or the COMMIT of a
    record whose INSERT reaches the server, the rollback of the handler
    raises, and [upsert_device] raises after closing its cursor. *)
Lemma upsert_device_drops (conn : nat) (renv : row_env) (d : dict) (w : world) :
  status (conn_of w conn) = Open ->
  complete d ->
  adaptable d ->
  drops renv ->
  exists w',
    upsert_device conn renv (PDict d) w
    = (inl (InterfaceError "connection already closed"), w')
    /\ trace w' = trace w ++ lost_events renv d
    /\ status (conn_of w' conn) = Lost
    /\ length (conns w') = length (conns w).
Proof.
  intros O C A D. pose proof (open_in_range _ _ O) as L.
  destruct (proj1 (storable_iff (stamp renv) d) (conj C A)) as [r B].
  assert (Hc : forall p evs,
             conn_of (with_events (with_conn w conn (mkConnection Lost p)) evs) conn
             = mkConnection Lost p).
  { intros p evs. rewrite conn_of_with_events. now rewrite conn_of_with_conn. }
  destruct D as [X | [X [e [Cm|Cm]]]].
  - eexists. split; [now apply (upsert_device_execute_dropped conn renv d w O r)|].
    rewrite Hc. simpl. now rewrite length_set_nth.
  - eexists. split; [now apply (upsert_device_commit_dropped conn renv d w O r e)|].
    rewrite Hc. simpl. now rewrite length_set_nth.
  - eexists. split; [now apply (upsert_device_commit_unacknowledged conn renv d w O r e)|].
    unfold conn_of, with_events. simpl. now rewrite nth_set_nth, length_set_nth.
Qed.

Lemma tick_outcome (env : tick_env) (w : world) :
  tick env w
  = (inr tt,
     match tick_body env w with
     | (inl e, w1) => with_events w1 [Print (MainLoopError e); Sleep 10]
     | (inr _, w1) => with_events w1 [Sleep 10]
     end).
Proof.
  unfold tick, bind, try_except, sleep, print, emit, with_events.
  destruct (tick_body env w) as [[e|[]] w1]; cbn; [|reflexivity].
  now rewrite <- app_assoc.
Qed.

(** A tick whose connection is made and whose response holds a value
    under ["data"] that can be iterated is the loop over its items,
    followed by the close when the loop returns, or by the error line
    when it raises. *)
Lemma tick_records (env : tick_env) (w : world) (res : response) (o : dict)
    (v : pyval) (l : list pyval) :
  on_connect env = None ->
  on_post env = inr res ->
  200 <= status_code res < 300 ->
  json res = inr (PDict o) ->
  dict_get o "data" = Some v ->
  iter v = inr l ->
  tick env w
  = (inr tt,
     match for_each (length (conns w)) env 0 l
             (with_events
                (mkWorld (table w) (conns w ++ [mkConnection Open []])
                         (trace w ++ [Connect (length (conns w))])) [Post]) with
     | (inl e, w2) => with_events w2 [Print (MainLoopError e); Sleep 10]
     | (inr _, w2) =>
         with_events (with_conn w2 (length (conns w)) (mkConnection Closed []))
           [Close (length (conns w)); Sleep 10]
     end).
Proof.
  intros EC EP S J D I.
  rewrite tick_outcome. unfold tick_body, get_db_connection, bind.
  rewrite EC, connect_ok.
  rewrite (fetch_api_data_ok env _ res (PDict o) v EP S J) by (simpl; now rewrite D).
  rewrite I. cbn [lift ret].
  destruct (for_each (length (conns w)) env 0 l _) as [[e|[]] w2]; [reflexivity|].
  unfold close, bind, set_conn, emit, with_events, with_conn. cbn.
  now rewrite <- app_assoc.
Qed.

(** C4, as the code has it. The API answers with N device records.
    As long as the server drops the connection for none of them, the
    tick makes exactly N attempts, one per record and in the order of
    the response: the INSERT of the mapping of each record is executed;
    when it succeeds it is committed and its row is added, and when it
    fails, with whatever error, that error is rolled back and printed,
    no row is added, and the next record is attempted all the same.
    The tick then closes the connection and sleeps. When instead the
    connection is lost during the attempt on a record, the rollback of
    the handler raises, nothing is rolled back or printed as a DB
    error, the exception is caught by the loop of [main], and the
    records after that one are not attempted. *)
Theorem tick_attempts (env : tick_env) (w : world) (res : response) (o : dict)
    (devices : list pyval) :
  on_connect env = None ->
  on_post env = inr res ->
  200 <= status_code res < 300 ->
  json res = inr (PDict o) ->
  dict_get o "data" = Some (PList devices) ->
  ((forall i, (i < length devices)%nat ->
              keeps_connection (on_execute (on_row env i))
              /\ keeps_connection (on_commit (on_row env i))) ->
   exists w',
     tick env w = (inr tt, w')
     /\ trace w' = trace w ++ [Connect (length (conns w)); Post]
                     ++ loop_events env 0 devices
                     ++ [Close (length (conns w)); Sleep 10]
     /\ attempts (trace w') = attempts (trace w) ++ devices
     /\ table w' = table w ++ loop_rows env 0 devices
     /\ status (conn_of w' (length (conns w))) = Closed)
  /\ (forall before d after_,
        devices = before ++ PDict d :: after_ ->
        (forall j, (j < length before)%nat ->
                   keeps_connection (on_execute (on_row env j))
                   /\ keeps_connection (on_commit (on_row env j))) ->
        complete d ->
        adaptable d ->
        drops (on_row env (length before)) ->
        exists w',
          tick env w = (inr tt, w')
          /\ trace w' = trace w ++ [Connect (length (conns w)); Post]
                          ++ loop_events env 0 before
                          ++ lost_events (on_row env (length before)) d
                          ++ [Print (MainLoopError
                                       (InterfaceError "connection already closed"));
                              Sleep 10]
          /\ attempts (trace w') = attempts (trace w) ++ before ++ [PDict d]
          /\ status (conn_of w' (length (conns w))) = Lost).
Proof.
  intros EC EP S J D.
  set (conn := length (conns w)).
  set (w1 := mkWorld (table w) (conns w ++ [mkConnection Open []])
                     (trace w ++ [Connect conn])).
  assert (O : status (conn_of (with_events w1 [Post]) conn) = Open).
  { rewrite conn_of_with_events. unfold w1, conn. now rewrite conn_of_new. }
  assert (P : pending (conn_of (with_events w1 [Post]) conn) = []).
  { rewrite conn_of_with_events. unfold w1, conn. now rewrite conn_of_new. }
  pose proof (tick_records env w res o (PList devices) devices EC EP S J D eq_refl) as Et.
  fold conn in Et. fold w1 in Et.
  split.
  - intros K.
    destruct (for_each_usable conn env devices 0%nat _ O K)
      as (w2 & E2 & O2 & L2 & T2 & R2).
    destruct (R2 P) as [_ Tb]. rewrite E2 in Et.
    eexists. split; [exact Et|].
    assert (Tr : trace w2 = trace w ++ [Connect conn; Post] ++ loop_events env 0 devices).
    { rewrite T2. simpl. now rewrite <- !app_assoc. }
    split; [|split; [|split]].
    + simpl. rewrite Tr. now rewrite <- !app_assoc.
    + simpl. rewrite Tr, !attempts_app, attempts_loop_events. simpl.
      now rewrite app_nil_r.
    + simpl. exact Tb.
    + rewrite conn_of_with_events, conn_of_with_conn; [reflexivity|].
      rewrite L2. simpl. rewrite length_app. simpl. unfold conn. lia.
  - intros before d after_ -> K C A Dr.
    destruct (for_each_usable conn env before 0%nat _ O K)
      as (w2 & E2 & O2 & L2 & T2 & _).
    destruct (upsert_device_drops conn _ d w2 O2 C A Dr) as (w3 & E3 & T3 & S3 & L3).
    rewrite for_each_app, E2 in Et. simpl in Et. unfold bind in Et. rewrite E3 in Et.
    eexists. split; [exact Et|].
    assert (Tr : trace w3 = trace w ++ [Connect conn; Post] ++ loop_events env 0 before
                            ++ lost_events (on_row env (length before)) d).
    { rewrite T3, T2. simpl. now rewrite <- !app_assoc. }
    split; [|split].
    + simpl. rewrite Tr. now rewrite <- !app_assoc.
    + simpl. rewrite Tr, !attempts_app, attempts_loop_events. simpl.
      now rewrite app_nil_r.
    + rewrite conn_of_with_events. exact S3.
Qed.

(** When the connection is made and the API call raises, the tick
    ends, after the error is printed and the sleep, with the connection
    it opened still open, and no [Close] is among its events. *)
Lemma tick_fetch_failure (env : tick_env) (w : world) (e : exn) :
  on_connect env = None ->
  on_post env = inl e ->
  exists w',
    tick env w = (inr tt, w')
    /\ status (conn_of w' (length (conns w))) = Open
    /\ trace w' = trace w ++ [Connect (length (conns w)); Post;
                              Print (MainLoopError e); Sleep 10].
Proof.
  intros EC EP.
  exists (mkWorld (table w) (conns w ++ [mkConnection Open []])
                  (trace w ++ [Connect (length (conns w)); Post;
                               Print (MainLoopError e); Sleep 10])).
  split; [|split].
  - unfold tick, tick_body, get_db_connection, bind, try_except, sleep, print, emit.
    rewrite EC, connect_ok. rewrite (fetch_api_data_post_fails _ _ e EP).
    cbn. rewrite <- !app_assoc. reflexivity.
  - now rewrite conn_of_new.
  - reflexivity.
Qed.


(** ** What every run respects *)

Section Respects.

Variable R : world -> world -> Prop.
Hypothesis R_refl : forall w, R w w.
Hypothesis R_trans : forall w1 w2 w3, R w1 w2 -> R w2 w3 -> R w1 w3.

Lemma respects_ret {A : Type} (a : A) : respects R (ret a).
Proof. intros w. apply R_refl. Qed.

Lemma respects_raise {A : Type} (e : exn) : respects R (@raise A e).
Proof. intros w. apply R_refl. Qed.

Lemma respects_lift {A : Type} (r : exn + A) : respects R (lift r).
Proof. destruct r; [apply respects_raise | apply respects_ret]. Qed.

Lemma respects_bind {A B : Type} (c : M A) (k : A -> M B) :
  respects R c -> (forall a, respects R (k a)) -> respects R (bind c k).
Proof.
  intros Hc Hk w. unfold bind. specialize (Hc w).
  destruct (c w) as [[e|a] w1]; simpl in *; [exact Hc|].
  eapply R_trans; [exact Hc | apply Hk].
Qed.

Lemma respects_try_except {A : Type} (c : M A) (h : exn -> M A) :
  respects R c -> (forall e, respects R (h e)) -> respects R (try_except c h).
Proof.
  intros Hc Hh w. unfold try_except. specialize (Hc w).
  destruct (c w) as [[e|a] w1]; simpl in *; [|exact Hc].
  eapply R_trans; [exact Hc | apply Hh].
Qed.

Lemma respects_try_finally {A : Type} (c : M A) (f : M unit) :
  respects R c -> respects R f -> respects R (try_finally c f).
Proof.
  intros Hc Hf w. unfold try_finally. specialize (Hc w).
  destruct (c w) as [r w1]. specialize (Hf w1).
  destruct (f w1) as [[e|u] w2]; simpl in *; eapply R_trans; eauto.
Qed.

End Respects.

Lemma grows_by_refl (P : event -> Prop) (w : world) : grows_by P w w.
Proof. exists []. now rewrite app_nil_r. Qed.

Lemma grows_by_trans (P : event -> Prop) (w1 w2 w3 : world) :
  grows_by P w1 w2 -> grows_by P w2 w3 -> grows_by P w1 w3.
Proof.
  intros (e1 & T1 & F1) (e2 & T2 & F2). exists (e1 ++ e2). split.
  - now rewrite T2, T1, app_assoc.
  - now apply Forall_app.
Qed.

Lemma keeps_stamped_refl (w : world) : keeps_stamped w w.
Proof. now intros H. Qed.

Lemma keeps_stamped_trans (w1 w2 w3 : world) :
  keeps_stamped w1 w2 -> keeps_stamped w2 w3 -> keeps_stamped w1 w3.
Proof. unfold keeps_stamped. auto. Qed.

(** *** The trace only grows, and only [tick] sleeps *)

Section Grows.

Variable P : event -> Prop.

Lemma grows_emit (ev : event) : P ev -> respects (grows_by P) (emit ev).
Proof. intros H w. exists [ev]. split; [reflexivity | now constructor]. Qed.

Lemma grows_set_conn (conn : nat) (c : connection) :
  respects (grows_by P) (set_conn conn c).
Proof. intros w. exists []. simpl. now rewrite app_nil_r. Qed.

Lemma grows_require_open (conn : nat) : respects (grows_by P) (require_open conn).
Proof.
  intros w. unfold require_open, bind, get_conn.
  destruct (status (conn_of w conn)); apply grows_by_refl.
Qed.

End Grows.

Ltac respects_with refl trans prim :=
  repeat first
    [ prim
    | apply respects_bind; [exact trans | | intros]
    | apply respects_try_finally; [exact trans | | ]
    | apply respects_try_except; [exact trans | | intros]
    | apply respects_ret; exact refl
    | apply respects_raise; exact refl
    | apply respects_lift; exact refl
    | match goal with
      | |- respects _ (match ?x with _ => _ end) => destruct x
      end ].

Ltac grows_prim :=
  first [ apply grows_emit; exact I
        | apply grows_set_conn
        | apply grows_require_open
        | (intros ?; exists []; simpl; rewrite app_nil_r; split;
           [reflexivity | constructor]) ].

Ltac grows :=
  respects_with (grows_by_refl not_sleep) (grows_by_trans not_sleep) grows_prim.

Lemma grows_upsert_device (conn : nat) (env : row_env) (device : pyval) :
  respects (grows_by not_sleep) (upsert_device conn env device).
Proof.
  unfold upsert_device, cursor, execute, commit, rollback, cursor_close, print.
  grows.
Qed.

Lemma grows_for_each (conn : nat) (env : tick_env) (devices : list pyval) (i : nat) :
  respects (grows_by not_sleep) (for_each conn env i devices).
Proof.
  revert i. induction devices as [|device devices IH]; intros i; simpl.
  - grows.
  - apply respects_bind; [exact (grows_by_trans not_sleep) | | intros _; apply IH].
    apply grows_upsert_device.
Qed.

Lemma grows_tick_body (env : tick_env) :
  respects (grows_by not_sleep) (tick_body env).
Proof.
  unfold tick_body, get_db_connection, fetch_api_data, raise_for_status, close.
  apply respects_bind; [exact (grows_by_trans not_sleep) | | intros conn].
  - unfold connect. destruct (on_connect env); [grows|].
    intros w. exists [Connect (length (conns w))]. split; [reflexivity|].
    now repeat constructor.
  - grows. apply grows_for_each.
Qed.

Lemma sleeps_app (tr1 tr2 : list event) :
  sleeps (tr1 ++ tr2) = sleeps tr1 ++ sleeps tr2.
Proof.
  induction tr1 as [|ev tr1 IH]; simpl; [reflexivity|].
  destruct ev; simpl; now rewrite IH.
Qed.

Lemma sleeps_not_sleep (evs : list event) :
  Forall not_sleep evs -> sleeps evs = [].
Proof.
  induction 1 as [|ev evs H _ IH]; simpl; [reflexivity|].
  destruct ev; simpl in *; auto. contradiction.
Qed.

Lemma tick_sleeps (env : tick_env) (w : world) :
  sleeps (trace (snd (tick env w))) = sleeps (trace w) ++ [10].
Proof.
  rewrite tick_outcome. simpl.
  destruct (grows_tick_body env w) as (evs & T & F).
  destruct (tick_body env w) as [[e|[]] w1]; simpl in *; rewrite T.
  - rewrite <- app_assoc, sleeps_app, sleeps_app, (sleeps_not_sleep _ F). reflexivity.
  - rewrite <- app_assoc, sleeps_app, sleeps_app, (sleeps_not_sleep _ F). reflexivity.
Qed.

Lemma ticks_sleeps (script : list tick_env) (w : world) :
  fst (ticks script w) = inr tt
  /\ sleeps (trace (snd (ticks script w)))
     = sleeps (trace w) ++ repeat 10 (length script).
Proof.
  revert w. induction script as [|env script IH]; intros w; simpl.
  - now rewrite app_nil_r.
  - unfold bind. pose proof (tick_sleeps env w) as S.
    rewrite tick_outcome in *. simpl in S.
    destruct (IH (match tick_body env w with
                  | (inl e, w1) => with_events w1 [Print (MainLoopError e); Sleep 10]
                  | (inr _, w1) => with_events w1 [Sleep 10]
                  end)) as [E1 E2].
    split; [exact E1|]. rewrite E2, S, <- app_assoc. reflexivity.
Qed.

(** C5. Whatever is raised in the body of a tick is caught by the
    [except] of the loop and printed as a main loop error; the tick
    itself never raises, and it ends with a sleep of 10 seconds whether
    its body returned or raised. So no run of [main] ends with an
    exception, and after any number of ticks there were as many sleeps,
    each of 10 seconds. *)
Theorem tick_catches_every_exception :
  (forall env w,
     tick env w
     = (inr tt,
        match tick_body env w with
        | (inl e, w1) => with_events w1 [Print (MainLoopError e); Sleep 10]
        | (inr _, w1) => with_events w1 [Sleep 10]
        end))
  /\ (forall script w,
        fst (main script w) = inr tt
        /\ sleeps (trace (snd (main script w)))
           = sleeps (trace w) ++ repeat 10 (length script)).
Proof.
  split; [exact tick_outcome|].
  intros script w. unfold main, bind, print, emit. cbn.
  destruct (ticks_sleeps script (mkWorld (table w) (conns w) (trace w ++ [Print Started])))
    as [E1 E2].
  split; [exact E1|]. rewrite E2. simpl. now rewrite sleeps_app, app_nil_r.
Qed.

(** *** Rows stay stamped *)

Lemma Forall_set_nth {A : Type} (Q : A -> Prop) (n : nat) (a : A) (l : list A) :
  Forall Q l -> Q a -> Forall Q (set_nth n a l).
Proof.
  intros H Ha. revert n. induction H as [|x l Hx Hl IH]; intros [|n]; simpl;
    try constructor; auto.
Qed.

Lemma stamped_pending (w : world) (conn : nat) :
  all_stamped w -> Forall stamped (pending (conn_of w conn)).
Proof.
  intros [_ H]. unfold conn_of.
  destruct (Nat.lt_ge_cases conn (length (conns w))) as [L|G].
  - rewrite Forall_forall in H. apply H. now apply nth_In.
  - rewrite nth_overflow by exact G. constructor.
Qed.

Lemma created_at_column : In "created_at" columns.
Proof. unfold columns. repeat (first [left; reflexivity | right]). Qed.

Lemma stamped_row (now : datetime) (d : dict) (r : row) :
  bind_params columns (sanitize now d) = inr r -> stamped r.
Proof.
  intros B. exists now.
  rewrite (bind_params_get _ _ _ _ B created_at_column).
  apply sanitize_created_at.
Qed.

Lemma stamped_emit (ev : event) : respects keeps_stamped (emit ev).
Proof. now intros w H. Qed.

Lemma stamped_set_conn (conn : nat) (c : connection) :
  Forall stamped (pending c) -> respects keeps_stamped (set_conn conn c).
Proof.
  intros Hc w [Ht Hp]. split; [exact Ht|]. simpl. now apply Forall_set_nth.
Qed.

Lemma stamped_require_open (conn : nat) : respects keeps_stamped (require_open conn).
Proof.
  intros w. unfold require_open, bind, get_conn.
  destruct (status (conn_of w conn)); apply keeps_stamped_refl.
Qed.

Opaque bind_params sanitize.

Lemma stamped_execute (conn : nat) (now : datetime) (d : dict) (answer : reply) :
  respects keeps_stamped (execute conn (sanitize now d) answer).
Proof.
  intros w H. pose proof (stamped_pending w conn H) as Hp. destruct H as [Ht Hc].
  unfold execute, bind, emit, require_open, get_conn, lift, set_conn, ret, raise.
  cbn. fold (conn_of w conn).
  destruct (conn_of w conn) as [[] p]; cbn; try (now split).
  destruct (bind_params columns (sanitize now d)) as [e|r] eqn:B; cbn; [now split|].
  simpl in Hp.
  destruct answer; cbn; split; auto; apply Forall_set_nth; auto; simpl.
  apply Forall_app. split; [exact Hp|]. constructor; [|constructor].
  now apply (stamped_row now d).
Qed.

Lemma stamped_commit (conn : nat) (answer : reply) :
  respects keeps_stamped (commit conn answer).
Proof.
  intros w H. pose proof (stamped_pending w conn H) as Hp. destruct H as [Ht Hc].
  unfold commit, bind, emit, require_open, get_conn, set_conn, ret, raise.
  cbn. fold (conn_of w conn).
  destruct (conn_of w conn) as [[] p]; cbn; try (now split).
  simpl in Hp.
  destruct answer; cbn; split; auto;
    repeat first [ assumption | apply Forall_app; split | apply Forall_set_nth
                 | constructor ].
Qed.

Transparent bind_params sanitize.

Ltac stamped_prim :=
  first [ apply stamped_emit
        | apply stamped_execute
        | apply stamped_commit
        | apply stamped_require_open
        | apply stamped_set_conn; constructor ].

Ltac stamped_steps :=
  respects_with keeps_stamped_refl keeps_stamped_trans stamped_prim.

Lemma stamped_upsert_device (conn : nat) (env : row_env) (device : pyval) :
  respects keeps_stamped (upsert_device conn env device).
Proof.
  unfold upsert_device, cursor, rollback, cursor_close, print. stamped_steps.
Qed.

Lemma stamped_for_each (conn : nat) (env : tick_env) (devices : list pyval) (i : nat) :
  respects keeps_stamped (for_each conn env i devices).
Proof.
  revert i. induction devices as [|device devices IH]; intros i; simpl.
  - stamped_steps.
  - apply respects_bind; [exact keeps_stamped_trans | | intros _; apply IH].
    apply stamped_upsert_device.
Qed.

Lemma stamped_tick (env : tick_env) : respects keeps_stamped (tick env).
Proof.
  unfold tick, tick_body, get_db_connection, fetch_api_data, raise_for_status,
    close, print, sleep.
  stamped_steps.
  - unfold connect. destruct (on_connect env); [stamped_steps|].
    intros w [Ht Hc]. split; [exact Ht|]. simpl. apply Forall_app. split; [exact Hc|].
    repeat constructor.
  - apply stamped_for_each.
Qed.

Lemma stamped_ticks (script : list tick_env) : respects keeps_stamped (ticks script).
Proof.
  induction script as [|env script IH]; simpl.
  - stamped_steps.
  - apply respects_bind; [exact keeps_stamped_trans | | intros _; apply IH].
    apply stamped_tick.
Qed.

(** C8. The mapping built for any record holds, under [created_at],
    the [datetime] read from the clock while it was built; the row that
    a successful call of [upsert_device] inserts carries that value; and
    every row of the table, after any run of [main] from the empty
    world, has a [created_at] that is a [datetime], hence not null. *)
Theorem every_row_has_created_at :
  (forall now device,
     dict_get (sanitize now device) "created_at" = Some (PDatetime now))
  /\ (forall conn env d w r,
        status (conn_of w conn) = Open ->
        pending (conn_of w conn) = [] ->
        bind_params columns (sanitize (stamp env) d) = inr r ->
        on_execute env = Done -> on_commit env = Done ->
        table (snd (upsert_device conn env (PDict d) w)) = table w ++ [r]
        /\ dict_get r "created_at" = Some (PDatetime (stamp env)))
  /\ (forall script, Forall stamped (table (snd (main script world0)))).
Proof.
  split; [exact sanitize_created_at | split].
  - intros conn env d w r O Pn B X C.
    rewrite (upsert_device_inserted conn env d w O r B X C). simpl. rewrite Pn.
    split; [reflexivity|].
    rewrite (bind_params_get _ _ _ _ B created_at_column).
    apply sanitize_created_at.
  - intros script.
    assert (H : respects keeps_stamped (main script)).
    { unfold main, print. apply respects_bind;
        [exact keeps_stamped_trans | apply stamped_emit | intros _; apply stamped_ticks]. }
    apply (H world0). split; constructor.
Qed.

(** ** Closing the connection *)

Lemma same_conns_refl (w : world) : same_conns w w.
Proof. reflexivity. Qed.

Lemma same_conns_trans (w1 w2 w3 : world) :
  same_conns w1 w2 -> same_conns w2 w3 -> same_conns w1 w3.
Proof. unfold same_conns. congruence. Qed.

Ltac same_conns_prim :=
  intros ?; unfold same_conns; simpl; rewrite ?length_set_nth; reflexivity.

Ltac same_conns_steps :=
  respects_with same_conns_refl same_conns_trans same_conns_prim.

Lemma same_conns_upsert_device (conn : nat) (env : row_env) (device : pyval) :
  respects same_conns (upsert_device conn env device).
Proof.
  unfold upsert_device, cursor, execute, commit, rollback, cursor_close, print,
    require_open.
  same_conns_steps.
Qed.

Lemma same_conns_for_each (conn : nat) (env : tick_env) (devices : list pyval) (i : nat) :
  respects same_conns (for_each conn env i devices).
Proof.
  revert i. induction devices as [|device devices IH]; intros i; simpl.
  - same_conns_steps.
  - apply respects_bind; [exact same_conns_trans | | intros _; apply IH].
    apply same_conns_upsert_device.
Qed.

Lemma fetch_api_data_world (env : tick_env) (w : world) :
  snd (fetch_api_data env w) = with_events w [Post].
Proof.
  unfold fetch_api_data, raise_for_status, bind, emit, lift, raise, ret. cbn.
  destruct (on_post env) as [e|res]; [reflexivity|]. cbn.
  destruct ((400 <=? status_code res) && (status_code res <? 600)); [reflexivity|].
  cbn. destruct (json res) as [e|obj]; [reflexivity|]. cbn.
  now destruct (get_data obj).
Qed.

(** When the body of a tick returns, the connection it opened is closed. *)
Lemma tick_body_closes_on_return (env : tick_env) (w w1 : world) :
  tick_body env w = (inr tt, w1) ->
  status (conn_of w1 (length (conns w))) = Closed.
Proof.
  unfold tick_body, get_db_connection, bind.
  destruct (on_connect env) as [e|]; [discriminate|]. rewrite connect_ok.
  pose proof (fetch_api_data_world env
    (mkWorld (table w) (conns w ++ [mkConnection Open []])
             (trace w ++ [Connect (length (conns w))]))) as F.
  destruct (fetch_api_data env _) as [[e|devices] w2]; [discriminate|].
  simpl in F. subst w2.
  destruct (iter devices) as [e|l]; [discriminate|]. cbn [lift ret].
  pose proof (same_conns_for_each (length (conns w)) env l 0
    (with_events (mkWorld (table w) (conns w ++ [mkConnection Open []])
                          (trace w ++ [Connect (length (conns w))])) [Post])) as L.
  destruct (for_each _ env 0 l _) as [[e|[]] w3]; [discriminate|].
  unfold same_conns in L. simpl in L. rewrite length_app in L. simpl in L.
  unfold close, bind, set_conn, emit. cbn. intros [= <-].
  unfold conn_of. simpl. rewrite nth_set_nth by lia. reflexivity.
Qed.

Lemma stays_unclosed_refl (conn : nat) (w : world) : stays_unclosed conn w w.
Proof. now intros H. Qed.

Lemma stays_unclosed_trans (conn : nat) (w1 w2 w3 : world) :
  stays_unclosed conn w1 w2 -> stays_unclosed conn w2 w3 -> stays_unclosed conn w1 w3.
Proof. unfold stays_unclosed. auto. Qed.

Lemma unclosed_in_range (w : world) (conn : nat) :
  status (conn_of w conn) <> Closed -> (conn < length (conns w))%nat.
Proof.
  unfold conn_of. intros H.
  destruct (Nat.lt_ge_cases conn (length (conns w))) as [L|G]; [exact L|].
  rewrite nth_overflow in H by exact G. now destruct H.
Qed.

Lemma unclosed_set_conn (conn : nat) (c : connection) :
  status c <> Closed -> respects (stays_unclosed conn) (set_conn conn c).
Proof.
  intros Hc w H. apply unclosed_in_range in H.
  unfold conn_of. simpl. now rewrite nth_set_nth.
Qed.

Ltac unclosed_prim :=
  first [ apply unclosed_set_conn; discriminate
        | (intros ? ?; assumption) ].

Ltac unclosed_steps conn :=
  respects_with (stays_unclosed_refl conn) (stays_unclosed_trans conn) unclosed_prim.

Lemma unclosed_upsert_device (conn : nat) (env : row_env) (device : pyval) :
  respects (stays_unclosed conn) (upsert_device conn env device).
Proof.
  unfold upsert_device, cursor, execute, commit, rollback, cursor_close, print,
    require_open.
  unclosed_steps conn.
Qed.

Lemma unclosed_for_each (conn : nat) (env : tick_env) (devices : list pyval) (i : nat) :
  respects (stays_unclosed conn) (for_each conn env i devices).
Proof.
  revert i. induction devices as [|device devices IH]; intros i; simpl.
  - unclosed_steps conn.
  - apply respects_bind; [exact (stays_unclosed_trans conn) | | intros _; apply IH].
    apply unclosed_upsert_device.
Qed.

(** When the connection was made and the body of the tick raises,
    whatever raised, the connection is not closed. *)
Lemma tick_body_raises_unclosed (env : tick_env) (w w1 : world) (e : exn) :
  on_connect env = None ->
  tick_body env w = (inl e, w1) ->
  status (conn_of w1 (length (conns w))) <> Closed.
Proof.
  intros EC. unfold tick_body, get_db_connection, bind. rewrite EC, connect_ok.
  set (conn := length (conns w)).
  set (w0 := mkWorld (table w) (conns w ++ [mkConnection Open []])
                     (trace w ++ [Connect conn])).
  assert (O : status (conn_of w0 conn) <> Closed).
  { unfold w0, conn. now rewrite conn_of_new. }
  pose proof (fetch_api_data_world env w0) as F.
  destruct (fetch_api_data env w0) as [[e'|devices] w2]; simpl in F; subst w2.
  { now intros [= _ <-]. }
  destruct (iter devices) as [e'|l]; cbn [lift ret raise].
  { now intros [= _ <-]. }
  pose proof (unclosed_for_each conn env l 0 (with_events w0 [Post]) O) as U.
  destruct (for_each conn env 0 l (with_events w0 [Post])) as [[e'|[]] w3]; simpl in U.
  { now intros [= _ <-]. }
  unfold close, bind, set_conn, emit. cbn. discriminate.
Qed.

(** C6, where the code departs from it. When the connection was made
    and the body of the tick raises, in the fetch or in any later step,
    [conn.close()] is skipped: the error is printed, the tick sleeps
    and ends, and the connection it opened is not closed. *)
Theorem tick_failure_leaves_connection_open
    (env : tick_env) (w w1 : world) (e : exn) :
  on_connect env = None ->
  tick_body env w = (inl e, w1) ->
  tick env w = (inr tt, with_events w1 [Print (MainLoopError e); Sleep 10])
  /\ status (conn_of (snd (tick env w)) (length (conns w))) <> Closed.
Proof.
  intros EC EB. pose proof (tick_body_raises_unclosed env w w1 e EC EB) as U.
  rewrite tick_outcome, EB. split; [reflexivity | exact U].
Qed.

(** ** The scenarios *)

Lemma complete_dict_storable (imei : string) :
  has_nul imei = false ->
  complete (complete_dict imei) /\ adaptable (complete_dict imei).
Proof.
  intros H. split.
  - intros c Hc _. simpl in Hc.
    repeat (destruct Hc as [<-|Hc]; [discriminate|]). contradiction.
  - intros c v Hc _ E. simpl in Hc.
    repeat (destruct Hc as [<-|Hc];
            [vm_compute in E; injection E as <-; simpl; rewrite ?H; reflexivity|]).
    contradiction.
Qed.

(** C3, where the code departs from it. When a column other than the
    two timestamps and [created_at] is missing from the record, the
    mapping built has no entry for it either: the INSERT raises before
    anything is sent, the transaction is rolled back, the error is
    printed, and no row is added to the table. The error is the
    [KeyError] of a missing column, unless a value that cannot be
    adapted stands before the first missing column, in which case it is
    the error of that adaptation. *)
Theorem upsert_missing_field_not_inserted
    (conn : nat) (env : row_env) (d : dict) (w : world) (c : string) :
  status (conn_of w conn) = Open ->
  In c columns ->
  c <> "gpsiat" -> c <> "bmsiat" -> c <> "created_at" ->
  dict_get d c = None ->
  dict_get (sanitize (stamp env) d) c = None
  /\ exists e,
       upsert_device conn env (PDict d) w
       = (inr tt,
          with_events (with_conn w conn (mkConnection Open []))
            (rolled_back (PDict d) (sanitize (stamp env) d) e))
       /\ table (snd (upsert_device conn env (PDict d) w)) = table w
       /\ ((exists k, In k columns /\ dict_get d k = None /\ e = KeyError k)
           \/ (exists k v, In k columns /\ ~ set_by_code k
                           /\ dict_get d k = Some v /\ adapt v = inl e))
       /\ (adaptable d -> exists k, dict_get d k = None /\ e = KeyError k).
Proof.
  intros O Hc Hg Hb Hs E.
  assert (N : dict_get (sanitize (stamp env) d) c = None).
  { rewrite sanitize_other, sanitize_fields_other, E by assumption. reflexivity. }
  split; [exact N|].
  destruct (bind_params_missing columns _ c Hc N) as [e B].
  exists e. rewrite (upsert_device_key_error conn env d w O _ B).
  pose proof (sanitize_bind_error _ _ _ B) as H.
  repeat split; auto.
  intros A. destruct H as [(k & _ & Ek & Ee)|(k & v & Hk & Sk & Ek & F)]; [now exists k|].
  rewrite (A k v Hk Sk Ek) in F. discriminate F.
Qed.

(** The record of the end-to-end scenario has no [assetname]. *)
Lemma upsert_missing_field_not_inserted_witness :
  dict_get (sanitize noon scenario_record) "assetname" = None
  /\ upsert_device 0 accepting (PDict scenario_record) connected
     = (inr tt,
        with_events (with_conn connected 0 (mkConnection Open []))
          (rolled_back (PDict scenario_record) (sanitize noon scenario_record)
                       (KeyError "assetname")))
  /\ table (snd (upsert_device 0 accepting (PDict scenario_record) connected))
     = table connected.
Proof.
  destruct (upsert_missing_field_not_inserted 0 accepting scenario_record connected
              "assetname")
    as (N & e & E & T & _ & _);
    [ reflexivity | right; left; reflexivity | discriminate | discriminate
    | discriminate | reflexivity | ].
  split; [exact N|]. split; [|exact T].
  vm_compute. reflexivity.
Defined.

(** C9. Every [GET /] is answered with status 200 and the payload
    [{"status": "ok", "service": "vizvolt-ingestion"}], in every world,
    and the world is left as it was. *)
Theorem health_is_constant (req : request) (w : world) :
  method req = "GET" ->
  path req = "/" ->
  answer req w
  = Some (inr (200, PDict [("status", PStr "ok");
                           ("service", PStr "vizvolt-ingestion")]), w).
Proof. intros M P. unfold answer, app. rewrite M, P. reflexivity. Qed.

(** The probe after a tick that failed. *)
Lemma health_is_constant_witness :
  answer (mkRequest "GET" "/" "" "") (snd (tick timeout_tick world0))
  = Some (inr (200, PDict [("status", PStr "ok");
                           ("service", PStr "vizvolt-ingestion")]),
          snd (tick timeout_tick world0)).
Proof. apply health_is_constant; reflexivity. Defined.

(** Two records of which the server refuses the first; and two
    records, the connection being lost while the first INSERT runs. *)
Lemma tick_attempts_witness :
  (exists w',
     tick refusing_tick world0 = (inr tt, w')
     /\ trace w' = trace world0 ++ [Connect (length (conns world0)); Post]
                     ++ loop_events refusing_tick 0
                          [complete_record "A"; complete_record "B"]
                     ++ [Close (length (conns world0)); Sleep 10]
     /\ attempts (trace w')
        = attempts (trace world0) ++ [complete_record "A"; complete_record "B"]
     /\ table w' = table world0
                     ++ loop_rows refusing_tick 0
                          [complete_record "A"; complete_record "B"]
     /\ status (conn_of w' (length (conns world0))) = Closed)
  /\ (exists w',
        tick dropping_tick world0 = (inr tt, w')
        /\ trace w' = trace world0 ++ [Connect (length (conns world0)); Post]
                        ++ loop_events dropping_tick 0 []
                        ++ lost_events (on_row dropping_tick (length (@nil pyval)))
                             (complete_dict "A")
                        ++ [Print (MainLoopError
                                     (InterfaceError "connection already closed"));
                            Sleep 10]
        /\ attempts (trace w')
           = attempts (trace world0) ++ [] ++ [PDict (complete_dict "A")]
        /\ status (conn_of w' (length (conns world0))) = Lost).
Proof.
  split.
  - apply (tick_attempts refusing_tick world0
             (mkResponse 200
                (inr (PDict [("data", PList [complete_record "A"; complete_record "B"])])))
             [("data", PList [complete_record "A"; complete_record "B"])]);
      [ reflexivity | reflexivity | simpl; lia | reflexivity | reflexivity | ].
    intros [|[|i]] Hi; simpl in *; try lia; split; exact I.
  - refine (proj2 (tick_attempts dropping_tick world0
                      (mkResponse 200
                         (inr (PDict [("data", PList [complete_record "A";
                                                      complete_record "B"])])))
                      [("data", PList [complete_record "A"; complete_record "B"])]
                      [complete_record "A"; complete_record "B"]
                      eq_refl eq_refl _ eq_refl eq_refl)
                   [] (complete_dict "A") [complete_record "B"] eq_refl _ _ _ _);
      [ simpl; lia
      | intros j Hj; simpl in Hj; lia
      | apply complete_dict_storable; reflexivity
      | apply complete_dict_storable; reflexivity
      | left; eexists; left; reflexivity ].
Defined.

(** C4, as the specification states it, fails: the response holds two
    records, the connection is lost while the first INSERT runs,
    [conn.rollback()] raises in the handler, and the exception leaves
    [upsert_device] and the loop. One attempt is made, nothing is
    rolled back, and the second record is never attempted. *)
Lemma tick_connection_lost :
  get_data (PDict [("data", PList [complete_record "A"; complete_record "B"])])
  = inr (PList [complete_record "A"; complete_record "B"])
  /\ attempts (trace (snd (tick dropping_tick world0))) = [complete_record "A"]
  /\ trace (snd (tick dropping_tick world0))
     = [Connect 0; Post; Upsert (complete_record "A");
        Execute (sanitize noon (("imei", PStr "A")
                                  :: map (fun c => (c, PInt 1)) (tl columns)));
        CursorClose;
        Print (MainLoopError (InterfaceError "connection already closed"));
        Sleep 10].
Proof. repeat split; vm_compute; reflexivity. Qed.

(** The API call times out. *)
Lemma tick_failure_leaves_connection_open_witness :
  tick timeout_tick world0
  = (inr tt,
     with_events
       (mkWorld [] [mkConnection Open []] [Connect 0; Post])
       [Print (MainLoopError (RequestException "Read timed out. (read timeout=30)"));
        Sleep 10])
  /\ status (conn_of (snd (tick timeout_tick world0)) (length (conns world0)))
     <> Closed.
Proof.
  apply (tick_failure_leaves_connection_open timeout_tick world0
           (mkWorld [] [mkConnection Open []] [Connect 0; Post])
           (RequestException "Read timed out. (read timeout=30)"));
    reflexivity.
Defined.



(** * Further properties *)

(** ** The mapping handed to the INSERT *)

(** X1. The mapping handed to the INSERT holds exactly the keys of the
    record and the three keys the code sets itself: a key is missing
    from it exactly when it is missing from the record and is none of
    [gpsiat], [bmsiat], [created_at]. So no key of the record is
    dropped, and the two timestamps are there even when the record has
    none. *)
Theorem sanitize_keys (now : datetime) (d : dict) (k : string) :
  dict_get (sanitize now d) k = None
  <-> dict_get d k = None /\ ~ set_by_code k.
Proof. apply sanitize_get_none. Qed.

Lemma sanitize_timestamp_value (v : pyval) :
  safe_timestamp v = PNone
  \/ exists t, safe_timestamp v = PDatetime t /\ valid_datetime t.
Proof.
  destruct (safe_timestamp_cases v) as [E|[t E]]; [now left|].
  right. exists t. split; [exact E|].
  unfold safe_timestamp in E. destruct (py_in v sentinels); [discriminate|].
  destruct (strptime v) as [e|t'] eqn:S; [discriminate|].
  injection E as <-. now apply (strptime_valid v).
Qed.

Lemma safe_never_sentinel (v : pyval) : ~ is_sentinel (safe v safe_default).
Proof.
  unfold safe. destruct (py_in v sentinels) eqn:E.
  - intros [H|[H|[H|[H|H]]]]; discriminate H.
  - now apply py_in_sentinels_false.
Qed.

(** X2. No sentinel reaches the INSERT outside the timestamps: in the
    mapping built for any record, the value under [gpsiat] or [bmsiat]
    is [None] or a [datetime] that is an instant, and the value under
    every other key is not one of [None], [""], ["null"], ["NULL"],
    ["NA"]. *)
Theorem sanitize_leaves_no_sentinel (now : datetime) (d : dict) (k : string) (v : pyval) :
  dict_get (sanitize now d) k = Some v ->
  (k = "gpsiat" \/ k = "bmsiat" ->
   v = PNone \/ exists t, v = PDatetime t /\ valid_datetime t)
  /\ (k <> "gpsiat" -> k <> "bmsiat" -> ~ is_sentinel v).
Proof.
  intros H. split.
  - intros [-> | ->]; rewrite sanitize_other in H by discriminate.
    + rewrite sanitize_fields_gpsiat in H. injection H as <-.
      apply sanitize_timestamp_value.
    + rewrite sanitize_fields_bmsiat in H. injection H as <-.
      apply sanitize_timestamp_value.
  - intros Ng Nb. destruct (string_dec k "created_at") as [->|Nc].
    + rewrite sanitize_created_at in H. injection H as <-.
      intros [S|[S|[S|[S|S]]]]; discriminate S.
    + rewrite sanitize_other, sanitize_fields_other in H by assumption.
      destruct (dict_get d k) as [v0|]; [|discriminate]. simpl in H.
      injection H as <-. apply safe_never_sentinel.
Qed.

(** ** How a call of [upsert_device] ends *)

Lemma upsert_device_ends (conn : nat) (env : row_env) (device : pyval) (w : world) :
  status (conn_of w conn) = Open ->
  upsert_end conn env device w (upsert_device conn env device w).
Proof.
  intros O. destruct (is_dict device) as [[d ->]|N].
  - destruct (bind_params columns (sanitize (stamp env) d)) as [e|r] eqn:B.
    { rewrite (upsert_device_key_error conn env d w O e B).
      apply (end_rolled_back conn env (PDict d) w e [Execute (sanitize (stamp env) d)]).
      right. now eexists. }
    destruct (on_execute env) as [|e|e|e] eqn:X.
    + destruct (on_commit env) as [|e|e|e] eqn:C.
      * rewrite (upsert_device_inserted conn env d w O r B X C).
        now apply (end_inserted conn env (PDict d) w d r).
      * rewrite (upsert_device_commit_refused conn env d w O r e B X C).
        apply (end_rolled_back conn env (PDict d) w e [Execute (sanitize (stamp env) d)]).
        right. now eexists.
      * rewrite (upsert_device_commit_dropped conn env d w O r e B X C).
        apply (end_lost conn env (PDict d) w d r); auto.
      * rewrite (upsert_device_commit_unacknowledged conn env d w O r e B X C).
        now apply (end_unacknowledged conn env (PDict d) w d r e).
    + rewrite (upsert_device_execute_refused conn env d w O r e B X).
      apply (end_rolled_back conn env (PDict d) w e [Execute (sanitize (stamp env) d)]).
      right. now eexists.
    + rewrite (upsert_device_execute_dropped conn env d w O r B);
        [|exists e; now left].
      apply (end_lost conn env (PDict d) w d r); auto.
    + rewrite (upsert_device_execute_dropped conn env d w O r B);
        [|exists e; now right].
      apply (end_lost conn env (PDict d) w d r); auto.
  - rewrite (upsert_device_not_dict conn env device w O N).
    apply (end_rolled_back conn env device w (AttributeError "items") []). now left.
Qed.

(** X4. Once [conn.cursor()] has returned, the cursor is closed
    however the call ends: whether [upsert_device] returns after a
    commit, returns after a rollback, or raises because the rollback
    itself raised, its last event is [cursor.close()]. *)
Theorem upsert_device_closes_cursor (conn : nat) (env : row_env) (device : pyval)
    (w : world) :
  status (conn_of w conn) = Open ->
  exists evs,
    trace (snd (upsert_device conn env device w))
    = trace w ++ Upsert device :: evs ++ [CursorClose].
Proof.
  intros O. destruct (upsert_device_ends conn env device w O)
    as [e evs _ | d r _ _ | d r p _ _ _ | d r e _ _ _]; simpl.
  - exists (evs ++ [Rollback; Print (DbError e)]). now rewrite <- app_assoc.
  - now exists [Execute (sanitize (stamp env) d); Commit;
                Print (Inserted (py_get d "imei") (printed_at env))].
  - now exists [Execute (sanitize (stamp env) d)].
  - now exists [Execute (sanitize (stamp env) d)].
Qed.

Lemma dict_get_not_in (r : row) (k : string) :
  ~ In k (map fst r) -> dict_get r k = None.
Proof.
  induction r as [|[k' v] r IH]; simpl; [reflexivity|]. intros H.
  destruct (String.eqb k' k) eqn:E.
  - apply String.eqb_eq in E. tauto.
  - apply IH. tauto.
Qed.

(** X3. On an open connection without a transaction in progress and
    with a server that accepts, [upsert_device] adds a row exactly when
    the record holds every column other than [gpsiat], [bmsiat] and
    [created_at], each with a value that can be adapted to SQL (no
    JSON object, no string with a NUL). The row then has the columns of
    the INSERT, in its order, each with the value of the mapping; keys
    of the record that are no column are not stored. Otherwise the
    INSERT is never sent and the table is left as it was. *)
Theorem upsert_inserts_iff_storable (conn : nat) (env : row_env) (d : dict) (w : world) :
  status (conn_of w conn) = Open ->
  pending (conn_of w conn) = [] ->
  on_execute env = Done ->
  on_commit env = Done ->
  (storable d ->
   exists r,
     table (snd (upsert_device conn env (PDict d) w)) = table w ++ [r]
     /\ map fst r = columns
     /\ (forall c, In c columns ->
                   dict_get r c = dict_get (sanitize (stamp env) d) c)
     /\ (forall k, ~ In k columns -> dict_get r k = None))
  /\ (~ storable d ->
      table (snd (upsert_device conn env (PDict d) w)) = table w).
Proof.
  intros O P X C. split.
  - intros H. apply (storable_iff (stamp env)) in H. destruct H as [r B].
    exists r. rewrite (upsert_device_inserted conn env d w O r B X C). simpl.
    rewrite P. pose proof (bind_params_names _ _ _ B) as Hn.
    repeat split; auto.
    + intros c Hc. now apply (bind_params_get columns).
    + intros k Hk. apply dict_get_not_in. now rewrite Hn.
  - intros H.
    destruct (bind_params columns (sanitize (stamp env) d)) as [e|r] eqn:B.
    + now rewrite (upsert_device_key_error conn env d w O e B).
    + destruct H. apply (storable_iff (stamp env)). now exists r.
Qed.

(** ** Rows and lines *)

Lemma inserted_lines_app (tr1 tr2 : list event) :
  inserted_lines (tr1 ++ tr2) = (inserted_lines tr1 + inserted_lines tr2)%nat.
Proof.
  induction tr1 as [|ev tr1 IH]; simpl; [reflexivity|].
  destruct ev; simpl; auto. destruct l; simpl; auto.
Qed.

Lemma keeps_accounted_refl (exact : bool) (w : world) : keeps_accounted exact w w.
Proof. now intros H. Qed.

Lemma keeps_accounted_trans (exact : bool) (w1 w2 w3 : world) :
  keeps_accounted exact w1 w2 -> keeps_accounted exact w2 w3 ->
  keeps_accounted exact w1 w3.
Proof. unfold keeps_accounted. auto. Qed.

Lemma accounted_pending (exact : bool) (w : world) (conn : nat) :
  accounted exact w -> status (conn_of w conn) = Open -> pending (conn_of w conn) = [].
Proof.
  intros [_ H] O. pose proof (open_in_range w conn O) as L.
  rewrite Forall_forall in H. apply H; [|exact O]. now apply nth_In.
Qed.

Lemma accounted_with_conn (exact : bool) (w : world) (conn : nat) (c : connection)
    (evs : list event) :
  accounted exact w -> (status c = Open -> pending c = []) -> inserted_lines evs = O ->
  accounted exact (with_events (with_conn w conn c) evs).
Proof.
  intros [Ht Hc] H E. split; simpl.
  - rewrite inserted_lines_app, E, Nat.add_0_r. exact Ht.
  - now apply Forall_set_nth.
Qed.

Lemma accounted_events (exact : bool) (w : world) (evs : list event) :
  accounted exact w -> inserted_lines evs = O -> accounted exact (with_events w evs).
Proof.
  intros [Ht Hc] E. split; simpl; [|exact Hc].
  rewrite inserted_lines_app, E, Nat.add_0_r. exact Ht.
Qed.

(** A call of [upsert_device] keeps the account: it prints its line
    only after its row is committed; and it commits a row without
    printing the line only when the answer to the COMMIT is lost. *)
Lemma accounted_upsert_device (exact : bool) (conn : nat) (env : row_env)
    (device : pyval) :
  (exact = true -> forall e, on_commit env <> Unacknowledged e) ->
  respects (keeps_accounted exact) (upsert_device conn env device).
Proof.
  intros A w S. destruct (status (conn_of w conn)) eqn:O.
  - pose proof (accounted_pending exact w conn S O) as P.
    destruct (upsert_device_ends conn env device w O)
      as [e evs Hevs | d r _ _ | d r p _ _ _ | d r e _ _ C]; simpl.
    + apply accounted_with_conn; auto.
      destruct Hevs as [->|[data ->]]; reflexivity.
    + destruct S as [Ht Hc]. split; simpl.
      * rewrite P, !length_app, inserted_lines_app. simpl.
        destruct exact; lia.
      * now apply Forall_set_nth.
    + apply accounted_with_conn; auto. discriminate.
    + destruct S as [Ht Hc]. split; simpl.
      * rewrite P, !length_app, inserted_lines_app. simpl.
        destruct exact; [now destruct (A eq_refl e) | lia].
      * apply Forall_set_nth; [exact Hc | discriminate].
  - rewrite upsert_device_not_open by (rewrite O; discriminate).
    now apply accounted_events.
  - rewrite upsert_device_not_open by (rewrite O; discriminate).
    now apply accounted_events.
Qed.

Lemma accounted_emit (exact : bool) (ev : event) :
  inserted_lines [ev] = O -> respects (keeps_accounted exact) (emit ev).
Proof. intros E w S. now apply (accounted_events exact w [ev]). Qed.

Lemma accounted_set_conn (exact : bool) (conn : nat) (c : connection) :
  (status c = Open -> pending c = []) ->
  respects (keeps_accounted exact) (set_conn conn c).
Proof. intros H w [Ht Hc]. split; simpl; [exact Ht | now apply Forall_set_nth]. Qed.

Ltac accounted_prim :=
  first [ apply accounted_emit; reflexivity
        | apply accounted_set_conn; discriminate ].

Ltac accounted_steps exact :=
  respects_with (keeps_accounted_refl exact) (keeps_accounted_trans exact) accounted_prim.

Lemma accounted_for_each (exact : bool) (conn : nat) (env : tick_env)
    (devices : list pyval) (i : nat) :
  (exact = true -> acknowledged env) ->
  respects (keeps_accounted exact) (for_each conn env i devices).
Proof.
  intros A. revert i. induction devices as [|device devices IH]; intros i; simpl.
  - accounted_steps exact.
  - apply respects_bind; [exact (keeps_accounted_trans exact) | | intros _; apply IH].
    apply accounted_upsert_device. intros E e. now apply A.
Qed.

Lemma accounted_tick (exact : bool) (env : tick_env) :
  (exact = true -> acknowledged env) ->
  respects (keeps_accounted exact) (tick env).
Proof.
  intros A.
  unfold tick, tick_body, get_db_connection, fetch_api_data, raise_for_status,
    close, print, sleep.
  accounted_steps exact.
  - unfold connect. destruct (on_connect env); [accounted_steps exact|].
    intros w [Ht Hc]. split; simpl.
    + rewrite inserted_lines_app, Nat.add_0_r. exact Ht.
    + apply Forall_app. split; [exact Hc|]. repeat constructor.
  - now apply accounted_for_each.
Qed.

Lemma accounted_main (exact : bool) (script : list tick_env) :
  (exact = true -> Forall acknowledged script) ->
  respects (keeps_accounted exact) (main script).
Proof.
  intros A. unfold main, print.
  apply respects_bind;
    [exact (keeps_accounted_trans exact) | apply accounted_emit; reflexivity | intros _].
  induction script as [|env script IH]; simpl.
  - accounted_steps exact.
  - apply respects_bind; [exact (keeps_accounted_trans exact) | | intros _; apply IH].
    + apply accounted_tick. intros E. specialize (A E). now inversion A.
    + intros E. specialize (A E). now inversion A.
Qed.

(** X5. Every line "Inserted IMEI ..." has its row: in every run of
    [main] that starts with a row for each line printed and no
    transaction in progress, the table ends with at least as many rows
    as lines were printed, since a line is printed only after its row
    is committed. There are exactly as many rows as lines when the run
    starts so and the answer to no COMMIT is lost after the server has
    carried it out; a COMMIT whose answer is lost leaves a row without
    a line. *)
Theorem inserted_lines_have_rows (script : list tick_env) (w : world) :
  (covered w ->
   (inserted_lines (trace (snd (main script w)))
    <= length (table (snd (main script w))))%nat)
  /\ (settled w ->
      Forall acknowledged script ->
      length (table (snd (main script w)))
      = inserted_lines (trace (snd (main script w)))).
Proof.
  split.
  - intros S. apply (accounted_main false script); [discriminate | exact S].
  - intros S A. now apply (accounted_main true script).
Qed.

(** *** The table is only appended to *)

Lemma appends_refl (w : world) : appends w w.
Proof. exists []. now rewrite app_nil_r. Qed.

Lemma appends_trans (w1 w2 w3 : world) :
  appends w1 w2 -> appends w2 w3 -> appends w1 w3.
Proof.
  intros [r1 E1] [r2 E2]. exists (r1 ++ r2). now rewrite E2, E1, app_assoc.
Qed.

Lemma appends_commit (conn : nat) (answer : reply) : respects appends (commit conn answer).
Proof.
  intros w. unfold commit, bind, require_open, get_conn, set_conn, emit, ret, raise.
  cbn. fold (conn_of w conn).
  destruct (conn_of w conn) as [[] p]; cbn; try apply appends_refl.
  destruct answer; cbn; try apply appends_refl;
    first [ now exists p | (exists []; simpl; now rewrite app_nil_r) ].
Qed.

Ltac appends_prim :=
  first [ apply appends_commit
        | (intros ?; exists []; simpl; rewrite app_nil_r; reflexivity) ].

Ltac appends_steps := respects_with appends_refl appends_trans appends_prim.

Lemma appends_upsert_device (conn : nat) (env : row_env) (device : pyval) :
  respects appends (upsert_device conn env device).
Proof.
  unfold upsert_device, cursor, execute, rollback, cursor_close, print, require_open.
  appends_steps.
Qed.

Lemma appends_for_each (conn : nat) (env : tick_env) (devices : list pyval) (i : nat) :
  respects appends (for_each conn env i devices).
Proof.
  revert i. induction devices as [|device devices IH]; intros i; simpl.
  - appends_steps.
  - apply respects_bind; [exact appends_trans | | intros _; apply IH].
    apply appends_upsert_device.
Qed.

Lemma appends_tick (env : tick_env) : respects appends (tick env).
Proof.
  unfold tick, tick_body, get_db_connection, fetch_api_data, raise_for_status,
    close, print, sleep, connect.
  appends_steps. apply appends_for_each.
Qed.

(** X6. The program only appends: after any run of [main], from any
    world, the table is the table before followed by new rows. No row
    is changed or removed. *)
Theorem table_is_append_only (script : list tick_env) (w : world) :
  exists rows, table (snd (main script w)) = table w ++ rows.
Proof.
  revert w. assert (H : respects appends (ticks script)).
  { induction script as [|env script IH]; simpl.
    - appends_steps.
    - apply respects_bind; [exact appends_trans | apply appends_tick | intros _; apply IH]. }
  intros w. unfold main, print.
  apply (respects_bind appends appends_trans); [appends_steps | intros _; exact H].
Qed.

(** ** A lost connection *)

(** X7. When the connection is lost during the INSERT or the COMMIT
    of a record whose INSERT reaches the server (a complete record
    whose values can be adapted), [upsert_device] raises out of the
    loop: the records before it were each attempted, this one is the
    last attempt, none of the records after it is attempted, and the
    connection is left lost. *)
Theorem for_each_stops_at_drop (conn : nat) (env : tick_env)
    (before after_ : list pyval) (d : dict) (w : world) :
  status (conn_of w conn) = Open ->
  (forall j, (j < length before)%nat ->
             keeps_connection (on_execute (on_row env j))
             /\ keeps_connection (on_commit (on_row env j))) ->
  complete d ->
  adaptable d ->
  drops (on_row env (length before)) ->
  exists w',
    for_each conn env 0 (before ++ PDict d :: after_) w
    = (inl (InterfaceError "connection already closed"), w')
    /\ attempts (trace w') = attempts (trace w) ++ before ++ [PDict d]
    /\ status (conn_of w' conn) = Lost.
Proof.
  intros O K C A D.
  destruct (for_each_usable conn env before 0 w O K) as (w1 & E1 & O1 & L1 & T1 & _).
  destruct (upsert_device_drops conn _ d w1 O1 C A D) as (w2 & E2 & T2 & S2 & _).
  exists w2. rewrite for_each_app, E1. simpl. unfold bind. rewrite E2.
  split; [reflexivity|]. split; [|exact S2].
  rewrite T2, T1, !attempts_app, attempts_loop_events. simpl.
  now rewrite <- app_assoc.
Qed.

(** *** What [fetch_api_data] returns *)

(** X8. [fetch_api_data] returns exactly when [requests.post] returns
    a response whose status is not in 400..599 and whose body is a JSON
    object; it then returns the value under ["data"], whatever its
    type, or the empty list when there is none, and its only effect is
    the call. In every other case (transport error, status 4xx or 5xx,
    body that is not JSON, JSON that is not an object) it raises. *)
Theorem fetch_api_data_returns_iff (env : tick_env) (w w' : world) (v : pyval) :
  fetch_api_data env w = (inr v, w')
  <-> exists res o,
        on_post env = inr res
        /\ ~ (400 <= status_code res < 600)
        /\ json res = inr (PDict o)
        /\ v = match dict_get o "data" with
               | Some x => x
               | None => PList []
               end
        /\ w' = with_events w [Post].
Proof.
  unfold fetch_api_data, raise_for_status, bind, emit, lift, raise, ret. cbn.
  split.
  - destruct (on_post env) as [e|res] eqn:P; [discriminate|]. cbn.
    destruct (Z.leb_spec 400 (status_code res)) as [L|L];
      destruct (Z.ltb_spec (status_code res) 600) as [U|U]; cbn;
      try discriminate.
    all: destruct (json res) as [e|obj] eqn:J; [discriminate|]; cbn.
    all: destruct obj; try discriminate; cbn.
    all: intros H; exists res, d.
    all: split; [reflexivity|]; split; [lia|]; split; [exact J|].
    all: destruct (dict_get d "data"); injection H as <- <-; auto.
  - intros (res & o & -> & S & J & -> & ->). cbn.
    destruct (Z.leb_spec 400 (status_code res)) as [L|L];
      destruct (Z.ltb_spec (status_code res) 600) as [U|U]; cbn; try lia.
    all: rewrite J; cbn; now destruct (dict_get o "data").
Qed.

(** ** Text after a timestamp *)

Lemma rmatch_f_then (c1 c2 c3 c4 c5 c6 : ascii) (extra : string) :
  digit c1 = true -> digit c2 = true -> digit c3 = true ->
  digit c4 = true -> digit c5 = true -> digit c6 = true ->
  let f := String c1 (String c2 (String c3 (String c4 (String c5 (String c6 ""))))) in
  hd_error (rmatch re_f (f ++ extra)%string) = Some (mkHit f [("f", f)] extra).
Proof.
  unfold digit. intros H1 H2 H3 H4 H5 H6. cbn [String.append].
  unfold re_f.
  change (rmatch (Group "f" ?a) ?s) with
    (map (fun h => mkHit (text h) (("f", text h) :: groups h) (rest h)) (rmatch a s)).
  change (rmatch (Upto ?p 6) (String ?c ?s)) with
    (flat_map (fun h => after h (map hit_of (run_upto p 5 (rest h))))
               (map hit_of (if p c then [(String c "", s)] else []))).
  rewrite H1.
  change (flat_map ?f (map hit_of [?a])) with (f (hit_of a) ++ []).
  rewrite app_nil_r.
  change (rest (hit_of (?a, ?b))) with b.
  rewrite !run_upto_digits. rewrite H2, H3, H4, H5, H6. reflexivity.
Qed.

Lemma regex_match_fixed_then
  (y1 y2 y3 y4 m1 m2 d1 d2 h1 h2 n1 n2 s1 s2 f1 f2 f3 f4 f5 f6 : ascii)
  (extra : string) :
  forallb digit [y1; y2; y3; y4; m1; m2; d1; d2; h1; h2; n1; n2; s1; s2;
                 f1; f2; f3; f4; f5; f6] = true ->
  let s := str [y1; y2; y3; y4; "-"; m1; m2; "-"; d1; d2; " ";
                h1; h2; ":"; n1; n2; ":"; s1; s2; "."; f1; f2; f3; f4; f5; f6]%char in
  match regex_match format_regex (s ++ extra)%string with
  | Some found => rest found = extra
  | None => True
  end.
Proof.
  intros H s. subst s. digit_hyps H.
  unfold regex_match, format_regex, str, string_of_list_ascii.
  cbn [String.append].
  rewrite rmatch_Y by assumption.
  rewrite rmatch_m by assumption.
  destruct (between 1 12 (number [m1; m2])); [|exact I].
  rewrite (rmatch_d space) by (auto using digit_not_space).
  destruct (between 1 31 (number [d1; d2])); [|exact I].
  rewrite rmatch_H by assumption.
  destruct (between 0 23 (number [h1; h2])); [|exact I].
  rewrite rmatch_M by assumption.
  destruct (between 0 59 (number [n1; n2])); [|exact I].
  rewrite rmatch_S by assumption.
  destruct (between 0 61 (number [s1; s2])); [|exact I].
  rewrite !hd_error_map.
  pose proof (rmatch_f_then f1 f2 f3 f4 f5 f6 extra) as F. cbv zeta in F.
  cbn [String.append] in F. rewrite F by assumption.
  reflexivity.
Qed.

(** X9. A timestamp in the fixed format followed by anything at all (a
    seventh fraction digit, a zone offset, a newline) is turned into
    [None]: [strptime] refuses the text that remains. *)
Theorem safe_timestamp_trailing_text (s : string) (t : datetime) (extra : string) :
  fixed_format s t ->
  extra <> "" ->
  safe_timestamp (PStr (s ++ extra)%string) = PNone.
Proof.
  intros F N.
  destruct F as [y1 y2 y3 y4 m1 m2 d1 d2 h1 h2 n1 n2 s1 s2 f1 f2 f3 f4 f5 f6 H].
  assert (S : py_in (PStr (string_of_list_ascii
                 [y1; y2; y3; y4; "-"; m1; m2; "-"; d1; d2; " ";
                  h1; h2; ":"; n1; n2; ":"; s1; s2; "."; f1; f2; f3; f4; f5; f6]%char
                 ++ extra)%string) sentinels = false).
  { pose proof H as H'. digit_hyps H'. each_digit Hc; reflexivity. }
  unfold safe_timestamp. rewrite S. unfold strptime, _strptime_datetime, _strptime.
  pose proof (regex_match_fixed_then _ _ _ _ _ _ _ _ _ _ _ _ _ _ _ _ _ _ _ _ extra H) as R.
  cbv zeta in R. unfold str in R.
  destruct (regex_match format_regex _) as [found|]; [|reflexivity].
  rewrite R. destruct extra as [|c extra]; [now destruct N|]. reflexivity.
Qed.

(** *** Ticks whose ["data"] is not a list of records *)

Lemma for_each_no_record (conn : nat) (env : tick_env) (l : list pyval) :
  Forall not_a_record l ->
  forall (i : nat) (w : world),
    status (conn_of w conn) = Open ->
    exists w',
      for_each conn env i l w = (inr tt, w')
      /\ table w' = table w
      /\ length (conns w') = length (conns w)
      /\ status (conn_of w' conn) = Open
      /\ trace w' = trace w ++ flat_map rejected l.
Proof.
  induction 1 as [|device l N _ IH]; intros i w O.
  - exists w. simpl. rewrite app_nil_r. auto.
  - pose proof (open_in_range w conn O) as L.
    set (w1 := with_events (with_conn w conn (mkConnection Open [])) (rejected device)).
    assert (O1 : status (conn_of w1 conn) = Open).
    { unfold w1. rewrite conn_of_with_events. now rewrite conn_of_with_conn. }
    destruct (IH (S i) w1 O1) as (w2 & E & T & Ln & O2 & Tr).
    exists w2. simpl for_each. unfold bind.
    rewrite (upsert_device_not_dict conn (on_row env i) device w O N).
    fold (rejected device). fold w1. rewrite E.
    repeat split; auto.
    + rewrite Ln. unfold w1. simpl. apply length_set_nth.
    + rewrite Tr. unfold w1. simpl. now rewrite <- app_assoc.
Qed.

Lemma chars_not_records (s : string) : Forall not_a_record (chars s).
Proof. induction s; simpl; constructor; auto. discriminate. Qed.

Lemma keys_not_records (o : dict) :
  Forall not_a_record (map (fun kv => PStr (fst kv)) o).
Proof. induction o; simpl; constructor; auto. discriminate. Qed.

(** X10. When ["data"] holds no mapping at all (a list of values that
    are not mappings, a string, whose characters are then the items, or
    an object, whose keys are then the items), each item is attempted,
    fails on [device.items()] inside the [try], is rolled back and
    printed as a DB error; no row is added, the tick is not a failed
    one, and the connection is closed. *)
Theorem tick_without_records (env : tick_env) (w : world) (res : response)
    (o : dict) (v : pyval) (l : list pyval) :
  on_connect env = None ->
  on_post env = inr res ->
  200 <= status_code res < 300 ->
  json res = inr (PDict o) ->
  dict_get o "data" = Some v ->
  iter v = inr l ->
  (forall l', v = PList l' -> Forall not_a_record l') ->
  exists w',
    tick env w = (inr tt, w')
    /\ table w' = table w
    /\ status (conn_of w' (length (conns w))) = Closed
    /\ trace w' = trace w ++ [Connect (length (conns w)); Post]
                    ++ flat_map rejected l
                    ++ [Close (length (conns w)); Sleep 10].
Proof.
  intros EC EP S J D I Hl.
  assert (F : Forall not_a_record l).
  { destruct v; try discriminate; simpl in I; injection I as <-.
    - apply chars_not_records.
    - now apply Hl.
    - apply keys_not_records. }
  set (conn := length (conns w)).
  set (w1 := mkWorld (table w) (conns w ++ [mkConnection Open []])
                     (trace w ++ [Connect conn])).
  assert (O : status (conn_of (with_events w1 [Post]) conn) = Open).
  { rewrite conn_of_with_events. unfold w1, conn. now rewrite conn_of_new. }
  destruct (for_each_no_record conn env l F 0%nat _ O) as (w2 & E & T & Ln & O2 & Tr).
  exists (with_events (with_conn w2 conn (mkConnection Closed [])) [Close conn; Sleep 10]).
  split; [|split; [exact T | split]].
  - unfold tick, tick_body, get_db_connection, bind, try_except, sleep, print, emit.
    rewrite EC, connect_ok. fold conn. fold w1.
    rewrite (fetch_api_data_ok env w1 res (PDict o) v EP S J)
      by (simpl; now rewrite D).
    rewrite I. cbn [lift ret]. rewrite E. cbn.
    unfold with_events, with_conn. simpl. now rewrite <- app_assoc.
  - rewrite conn_of_with_events, conn_of_with_conn; [reflexivity|].
    rewrite Ln. simpl. rewrite length_app. simpl. unfold conn. lia.
  - simpl. rewrite Tr. simpl. now rewrite <- !app_assoc.
Qed.

(** X11. When ["data"] is present but is [null], a boolean or a number,
    the [for] loop raises [TypeError]: no attempt is made, the tick is
    a failed one, and it ends with its connection still open. A missing
    ["data"], by contrast, gives an uneventful tick. *)
Theorem tick_data_not_iterable (env : tick_env) (w : world) (res : response)
    (o : dict) (v : pyval) :
  on_connect env = None ->
  on_post env = inr res ->
  200 <= status_code res < 300 ->
  json res = inr (PDict o) ->
  dict_get o "data" = Some v ->
  v = PNone \/ (exists b, v = PBool b) \/ (exists n, v = PInt n)
  \/ (exists f, v = PFloat f) ->
  tick env w
  = (inr tt,
     mkWorld (table w) (conns w ++ [mkConnection Open []])
             (trace w ++ [Connect (length (conns w)); Post;
                          Print (MainLoopError (TypeError "object is not iterable"));
                          Sleep 10])).
Proof.
  intros EC EP S J D Hv.
  assert (I : iter v = inl (TypeError "object is not iterable")).
  { destruct Hv as [->|[[b ->]|[[n ->]|[f ->]]]]; reflexivity. }
  unfold tick, tick_body, get_db_connection, bind, try_except, sleep, print, emit.
  rewrite EC, connect_ok.
  rewrite (fetch_api_data_ok env _ res (PDict o) v EP S J) by (simpl; now rewrite D).
  rewrite I. cbn. now rewrite <- !app_assoc.
Qed.

(** ** Whole ticks *)

Lemma for_each_inserts (conn : nat) (env : tick_env) (ds : list dict) :
  Forall storable ds ->
  forall (i : nat) (w : world),
    status (conn_of w conn) = Open ->
    pending (conn_of w conn) = [] ->
    (forall j, (j < length ds)%nat ->
               on_execute (on_row env (i + j)) = Done
               /\ on_commit (on_row env (i + j)) = Done) ->
    exists w' rows,
      for_each conn env i (map PDict ds) w = (inr tt, w')
      /\ rows_of env i ds rows
      /\ table w' = table w ++ rows
      /\ length (conns w') = length (conns w)
      /\ trace w' = trace w ++ inserted_events env i ds.
Proof.
  induction 1 as [|d ds C _ IH]; intros i w O P K.
  - exists w, []. simpl. rewrite !app_nil_r. repeat split; auto. constructor.
  - destruct (K 0%nat) as [X Cm]; [simpl; lia|]. rewrite Nat.add_0_r in X, Cm.
    apply (storable_iff (stamp (on_row env i))) in C. destruct C as [r B].
    pose proof (open_in_range w conn O) as L.
    pose proof (upsert_device_inserted conn (on_row env i) d w O r B X Cm) as E1.
    rewrite P in E1. simpl in E1.
    match type of E1 with _ = (_, ?x) => set (w1 := x) in * end.
    assert (O1 : status (conn_of w1 conn) = Open).
    { unfold w1, conn_of, with_events. simpl. now rewrite nth_set_nth. }
    assert (P1 : pending (conn_of w1 conn) = []).
    { unfold w1, conn_of, with_events. simpl. now rewrite nth_set_nth. }
    destruct (IH (S i) w1 O1 P1) as (w2 & rows & E2 & R2 & T2 & L2 & Tr2).
    { intros j Hj. replace (S i + j)%nat with (i + S j)%nat by lia.
      apply K. simpl. lia. }
    exists w2, (r :: rows). simpl map. simpl for_each. unfold bind.
    rewrite E1, E2. repeat split.
    + now constructor.
    + rewrite T2. unfold w1. simpl. now rewrite <- app_assoc.
    + rewrite L2. unfold w1. simpl. apply length_set_nth.
    + rewrite Tr2. unfold w1. simpl. now rewrite <- app_assoc.
Qed.

(** X12. When every record of the response is complete, with values
    that can all be adapted to SQL, and the server accepts every INSERT
    and COMMIT, the tick adds one row per record, in the order of the
    response, each bound from the mapping built with the clock reading
    of its own attempt; the same record sent twice gives two rows. The
    tick closes its connection and sleeps. *)
Theorem tick_inserts_in_order (env : tick_env) (w : world) (res : response)
    (o : dict) (ds : list dict) :
  on_connect env = None ->
  on_post env = inr res ->
  200 <= status_code res < 300 ->
  json res = inr (PDict o) ->
  dict_get o "data" = Some (PList (map PDict ds)) ->
  Forall storable ds ->
  (forall j, (j < length ds)%nat ->
             on_execute (on_row env j) = Done /\ on_commit (on_row env j) = Done) ->
  exists w' rows,
    tick env w = (inr tt, w')
    /\ rows_of env 0 ds rows
    /\ table w' = table w ++ rows
    /\ status (conn_of w' (length (conns w))) = Closed
    /\ trace w' = trace w ++ [Connect (length (conns w)); Post]
                    ++ inserted_events env 0 ds
                    ++ [Close (length (conns w)); Sleep 10].
Proof.
  intros EC EP S J D F K.
  set (conn := length (conns w)).
  set (w1 := mkWorld (table w) (conns w ++ [mkConnection Open []])
                     (trace w ++ [Connect conn])).
  assert (O : status (conn_of (with_events w1 [Post]) conn) = Open).
  { rewrite conn_of_with_events. unfold w1, conn. now rewrite conn_of_new. }
  assert (P : pending (conn_of (with_events w1 [Post]) conn) = []).
  { rewrite conn_of_with_events. unfold w1, conn. now rewrite conn_of_new. }
  destruct (for_each_inserts conn env ds F 0%nat _ O P K)
    as (w2 & rows & E & R & T & Ln & Tr).
  exists (with_events (with_conn w2 conn (mkConnection Closed [])) [Close conn; Sleep 10]),
         rows.
  split; [|split; [exact R | split; [exact T | split]]].
  - unfold tick, tick_body, get_db_connection, bind, try_except, sleep, print, emit.
    rewrite EC, connect_ok. fold conn. fold w1.
    rewrite (fetch_api_data_ok env w1 res (PDict o) (PList (map PDict ds)) EP S J)
      by (simpl; now rewrite D).
    cbn [lift iter ret]. rewrite E. cbn.
    unfold with_events, with_conn. simpl. now rewrite <- app_assoc.
  - rewrite conn_of_with_events, conn_of_with_conn; [reflexivity|].
    rewrite Ln. simpl. rewrite length_app. simpl. unfold conn. lia.
  - simpl. rewrite Tr. simpl. now rewrite <- !app_assoc.
Qed.

(** X13. While the store cannot be reached the API is never called:
    in a run in which every [psycopg2.connect] raises, each tick prints
    the error and sleeps, and nothing else happens; the table and the
    connections are as before. *)
Theorem main_store_unreachable (script : list tick_env) (w : world) :
  Forall (fun env => on_connect env <> None) script ->
  main script w
  = (inr tt, with_events w (Print Started :: unreachable_events script)).
Proof.
  intros F. unfold main, bind, print, emit. cbn.
  assert (H : forall w0, ticks script w0 = (inr tt, with_events w0 (unreachable_events script))).
  { induction F as [|env script N _ IH]; intros w0; simpl.
    - unfold ret, with_events. rewrite app_nil_r. now destruct w0.
    - unfold bind. rewrite tick_outcome. unfold tick_body, get_db_connection, bind.
      destruct (on_connect env) as [e|]; [|now destruct N]. simpl.
      rewrite IH. unfold with_events. simpl. now rewrite <- !app_assoc. }
  rewrite H. unfold with_events. simpl. now rewrite <- app_assoc.
Qed.

(** ** Further scenarios *)

(** A complete record is stored; the same record with a JSON object
    under [serial] is not, although the server accepts everything. *)
Lemma upsert_inserts_iff_storable_witness :
  (exists r,
     table (snd (upsert_device 0 accepting (PDict (complete_dict "A")) connected))
     = table connected ++ [r]
     /\ map fst r = columns
     /\ (forall c, In c columns ->
                   dict_get r c = dict_get (sanitize (stamp accepting) (complete_dict "A")) c)
     /\ (forall k, ~ In k columns -> dict_get r k = None))
  /\ table (snd (upsert_device 0 accepting (PDict nested_dict) connected))
     = table connected.
Proof.
  split.
  - apply (upsert_inserts_iff_storable 0 accepting (complete_dict "A") connected);
      [ reflexivity | reflexivity | reflexivity | reflexivity
      | apply complete_dict_storable; reflexivity ].
  - apply (upsert_inserts_iff_storable 0 accepting nested_dict connected);
      [ reflexivity | reflexivity | reflexivity | reflexivity | ].
    intros [_ A].
    assert (H : adapt (PDict [("batch", PInt 7)]) = inr tt);
      [|discriminate H].
    apply (A "serial"); [ | intros [H|[H|H]]; discriminate H | reflexivity ].
    unfold columns. repeat (first [left; reflexivity | right]).
Defined.

Lemma sanitize_leaves_no_sentinel_witness :
  (("voltage" = "gpsiat" \/ "voltage" = "bmsiat" ->
    PInt 0 = PNone \/ exists t, PInt 0 = PDatetime t /\ valid_datetime t)
   /\ ("voltage" <> "gpsiat" -> "voltage" <> "bmsiat" -> ~ is_sentinel (PInt 0))).
Proof.
  apply (sanitize_leaves_no_sentinel noon scenario_record "voltage" (PInt 0)).
  reflexivity.
Defined.

(** A run whose second tick commits a row without the answer, and a
    run in which every answer arrives. *)
Lemma inserted_lines_have_rows_witness :
  (inserted_lines (trace (snd (main [refusing_tick; unacknowledged_tick] world0)))
   <= length (table (snd (main [refusing_tick; unacknowledged_tick] world0))))%nat
  /\ length (table (snd (main [refusing_tick; accepting_tick] world0)))
     = inserted_lines (trace (snd (main [refusing_tick; accepting_tick] world0))).
Proof.
  split.
  - apply (inserted_lines_have_rows [refusing_tick; unacknowledged_tick] world0).
    split; [apply Nat.le_refl | constructor].
  - apply (inserted_lines_have_rows [refusing_tick; accepting_tick] world0).
    + split; [reflexivity | constructor].
    + repeat constructor; intros i e; destruct i as [|i]; discriminate.
Defined.

(** A COMMIT whose answer is lost leaves a row without its line. *)
Lemma unacknowledged_row_without_line :
  length (table (snd (main [unacknowledged_tick] world0))) = 1%nat
  /\ inserted_lines (trace (snd (main [unacknowledged_tick] world0))) = 0%nat.
Proof. split; vm_compute; reflexivity. Qed.

Lemma tick_data_not_iterable_witness :
  tick null_data_tick world0
  = (inr tt,
     mkWorld (table world0) (conns world0 ++ [mkConnection Open []])
             (trace world0 ++ [Connect (length (conns world0)); Post;
                               Print (MainLoopError (TypeError "object is not iterable"));
                               Sleep 10])).
Proof.
  apply (tick_data_not_iterable null_data_tick world0
           (mkResponse 200 (inr (PDict [("data", PNone)]))) [("data", PNone)] PNone);
    [ reflexivity | reflexivity | simpl; lia | reflexivity | reflexivity
    | left; reflexivity ].
Defined.

Lemma tick_without_records_witness :
  exists w',
    tick text_data_tick world0 = (inr tt, w')
    /\ table w' = table world0
    /\ status (conn_of w' (length (conns world0))) = Closed
    /\ trace w' = trace world0 ++ [Connect (length (conns world0)); Post]
                    ++ flat_map rejected [PStr "a"; PStr "b"]
                    ++ [Close (length (conns world0)); Sleep 10].
Proof.
  apply (tick_without_records text_data_tick world0
           (mkResponse 200 (inr (PDict [("data", PStr "ab")])))
           [("data", PStr "ab")] (PStr "ab") [PStr "a"; PStr "b"]);
    [ reflexivity | reflexivity | simpl; lia | reflexivity | reflexivity
    | reflexivity | discriminate ].
Defined.

Lemma for_each_stops_at_drop_witness :
  exists w',
    for_each 0 late_dropping_tick 0
      ([complete_record "A"] ++ PDict (complete_dict "B") :: [complete_record "C"])
      connected
    = (inl (InterfaceError "connection already closed"), w')
    /\ attempts (trace w')
       = attempts (trace connected) ++ [complete_record "A"] ++ [PDict (complete_dict "B")]
    /\ status (conn_of w' 0) = Lost.
Proof.
  apply (for_each_stops_at_drop 0 late_dropping_tick [complete_record "A"]
           [complete_record "C"] (complete_dict "B") connected);
    [ reflexivity
    | intros [|j] Hj; [split; exact I | simpl in Hj; lia]
    | apply complete_dict_storable; reflexivity
    | apply complete_dict_storable; reflexivity
    | left; eexists; left; reflexivity ].
Defined.

Lemma extra_not_empty : "+00:00" <> "".
Proof. discriminate. Qed.

Lemma safe_timestamp_trailing_text_witness :
  safe_timestamp (PStr ("2024-01-01 10:00:00.000000" ++ "+00:00")%string) = PNone.
Proof.
  apply (safe_timestamp_trailing_text _ _ _ fixed_format_example extra_not_empty).
Defined.

Lemma upsert_device_closes_cursor_witness :
  exists evs,
    trace (snd (upsert_device 0 accepting (PDict scenario_record) connected))
    = trace connected ++ Upsert (PDict scenario_record) :: evs ++ [CursorClose].
Proof.
  apply (upsert_device_closes_cursor 0 accepting (PDict scenario_record) connected).
  reflexivity.
Defined.

Lemma unreachable_tick_unreachable :
  Forall (fun env => on_connect env <> None) [unreachable_tick; unreachable_tick].
Proof. repeat constructor; discriminate. Qed.

Lemma main_store_unreachable_witness :
  main [unreachable_tick; unreachable_tick] world0
  = (inr tt,
     with_events world0
       (Print Started :: unreachable_events [unreachable_tick; unreachable_tick])).
Proof.
  apply (main_store_unreachable _ world0 unreachable_tick_unreachable).
Defined.

Lemma tick_inserts_in_order_witness :
  exists w' rows,
    tick accepting_tick world0 = (inr tt, w')
    /\ rows_of accepting_tick 0 [complete_dict "A"; complete_dict "B"] rows
    /\ table w' = table world0 ++ rows
    /\ status (conn_of w' (length (conns world0))) = Closed
    /\ trace w' = trace world0 ++ [Connect (length (conns world0)); Post]
                    ++ inserted_events accepting_tick 0 [complete_dict "A"; complete_dict "B"]
                    ++ [Close (length (conns world0)); Sleep 10].
Proof.
  apply (tick_inserts_in_order accepting_tick world0
           (mkResponse 200
              (inr (PDict [("data", PList (map PDict [complete_dict "A"; complete_dict "B"]))])))
           [("data", PList (map PDict [complete_dict "A"; complete_dict "B"]))]);
    [ reflexivity | reflexivity | simpl; lia | reflexivity | reflexivity
    | repeat constructor; apply complete_dict_storable; reflexivity
    | intros j _; split; reflexivity ].
Defined.
